(** * fetch-vaa: the scraping core of [metno_fetch_vaa.py]

    A shallow embedding of the parsers and fetch loops of
    [src/metno_fetch_vaa.py] and the properties they have.

    Conventions of the embedding.
    - A Python [str] is a [list ascii]; a character stands for a code
      point below 256.  String literals are written as Rocq strings and
      coerced.
    - [html.parser.HTMLParser] is library code.  A page is therefore
      given as the sequence of handler calls the library makes for it
      ([handle_starttag], [handle_data], [handle_endtag]); each parser
      class of the program is the fold of its three handlers over that
      sequence.
    - Library functions the fetchers call ([urlopen], [urljoin],
      [strptime], [os.path.exists], ...) are the fields of a [world].
    - A Python exception is a value of [exn]; code that can raise returns
      a [result]. *)

From Stdlib Require Import Ascii String.
From stdpp Require Import base tactics option list gmap strings.

Set Default Proof Using "Type".
Local Open Scope nat_scope.

(** ** Python strings *)

Abbreviation str := (list ascii).

Coercion list_ascii_of_string : string >-> list.

Module Str.

(** Code point of a character. *)
Definition ord (c : ascii) : nat := nat_of_ascii c.

Definition between (lo hi : nat) (c : ascii) : bool :=
  (lo <=? ord c) && (ord c <=? hi).

(** [str.isspace] and the class [\s] on code points below 256. *)
Definition is_space (c : ascii) : bool :=
  between 9 13 c || between 28 32 c || (ord c =? 133) || (ord c =? 160).

(** The class [\d]. *)
Definition is_digit (c : ascii) : bool := between 48 57 c.

(** The class [\w] on code points below 256. *)
Definition is_word (c : ascii) : bool :=
  between 48 57 c || between 65 90 c || (ord c =? 95) || between 97 122 c
  || (ord c =? 170) || between 178 179 c || (ord c =? 181)
  || between 185 186 c || between 188 190 c || between 192 214 c
  || between 216 246 c || between 248 255 c.

Definition newline : ascii := ascii_of_nat 10.

(** The class [.] (without DOTALL): everything but a newline. *)
Definition is_dot (c : ascii) : bool := negb (ord c =? 10).

(** [s.lstrip()], [s.rstrip()] and [s.strip()]. *)
Fixpoint lstrip (s : str) : str :=
  match s with
  | c :: s' => if is_space c then lstrip s' else s
  | [] => []
  end.

Definition rstrip (s : str) : str := reverse (lstrip (reverse s)).

Definition strip (s : str) : str := rstrip (lstrip s).

(** [s.startswith(p)] and [s.endswith(p)]. *)
Fixpoint startswith (s p : str) {struct p} : bool :=
  match p, s with
  | [], _ => true
  | a :: p', b :: s' => bool_decide (a = b) && startswith s' p'
  | _ :: _, [] => false
  end.

Definition endswith (s p : str) : bool :=
  startswith (reverse s) (reverse p).

(** [s.split(sep)] for a one-character separator: never empty. *)
Fixpoint split (sep : ascii) (s : str) : list str :=
  match s with
  | [] => [[]]
  | c :: s' =>
      if bool_decide (c = sep) then [] :: split sep s'
      else match split sep s' with
           | seg :: segs => (c :: seg) :: segs
           | [] => [[c]]
           end
  end.

(** [sep.join(parts)]. *)
Fixpoint join (sep : str) (parts : list str) : str :=
  match parts with
  | [] => []
  | [p] => p
  | p :: ps => p ++ sep ++ join sep ps
  end.

(** [s.replace(old, new)] for a non-empty [old]: the occurrences of
    [old] are replaced from left to right, without overlap.  [skip]
    counts the characters of an occurrence still to be passed over. *)
Fixpoint replace_from (old new : str) (skip : nat) (s : str) : str :=
  match s with
  | [] => []
  | c :: s' =>
      match skip with
      | S k => replace_from old new k s'
      | 0 =>
          if startswith s old
          then new ++ replace_from old new (length old - 1) s'
          else c :: replace_from old new 0 s'
      end
  end.

Definition replace (old new s : str) : str := replace_from old new 0 s.

(** [sub in s]. *)
Fixpoint contains (sub s : str) : bool :=
  startswith s sub ||
  match s with
  | [] => false
  | _ :: s' => contains sub s'
  end.

End Str.

(** ** Exceptions *)

Inductive exn : Set :=
  | IndexError | KeyError | TypeError | ValueError | AttributeError
  | UnicodeDecodeError | URLError | AssertionError.

Inductive result (A : Type) : Type :=
  | Ok (a : A)
  | Raise (e : exn).
Arguments Ok {A} a.
Arguments Raise {A} e.

#[global] Instance result_ret : MRet result := λ A a, Ok a.

#[global] Instance result_bind : MBind result := λ A B k r,
  match r with
  | Ok a => k a
  | Raise e => Raise e
  end.

(** ** Regular expressions ([re.search])

    The four patterns of the program use literals, the classes [\s],
    [\w], [\d] and [.], the repetitions [*], [+], [*?] of a class, one
    optional group and two capturing groups.  [match_re] is the
    backtracking matcher of [re]: alternatives are tried in the order of
    [re] (longest first for a greedy repetition, shortest first for a
    lazy one) and the first that lets the continuation succeed wins. *)

Module Re.

Inductive regex : Type :=
  | Lit (l : str)                     (* literal text *)
  | Cls (p : ascii → bool)            (* one character of a class *)
  | Star (p : ascii → bool)           (* [p*], greedy *)
  | Plus (p : ascii → bool)           (* [p+], greedy *)
  | LazyStar (p : ascii → bool)       (* [p*?] *)
  | Opt (r : regex)                   (* [(r)?], greedy *)
  | Group (r : regex)                 (* [(r)], capturing *)
  | Seq (r1 r2 : regex).

(** The concatenation of the items of a pattern, in order. *)
Definition seq (rs : list regex) : regex := foldr Seq (Lit []) rs.

Section matcher.
Context {T : Type}.

(** The continuation receives what is left of the input and the text
    of the groups closed so far. *)
Definition cont := str → list str → option T.

Fixpoint match_lit (l s : str) {struct l} : option str :=
  match l, s with
  | [], _ => Some s
  | a :: l', b :: s' => if bool_decide (a = b) then match_lit l' s' else None
  | _ :: _, [] => None
  end.

Fixpoint match_star (p : ascii → bool) (s : str) (k : str → option T)
  : option T :=
  match s with
  | c :: s' =>
      if p c then
        match match_star p s' k with
        | Some t => Some t
        | None => k s
        end
      else k s
  | [] => k []
  end.

Fixpoint match_lazy (p : ascii → bool) (s : str) (k : str → option T)
  : option T :=
  match k s with
  | Some t => Some t
  | None =>
      match s with
      | c :: s' => if p c then match_lazy p s' k else None
      | [] => None
      end
  end.

Fixpoint match_re (r : regex) (s : str) (gs : list str) (k : cont)
  : option T :=
  match r with
  | Lit l =>
      match match_lit l s with
      | Some s' => k s' gs
      | None => None
      end
  | Cls p =>
      match s with
      | c :: s' => if p c then k s' gs else None
      | [] => None
      end
  | Star p => match_star p s (λ s', k s' gs)
  | Plus p =>
      match s with
      | c :: s' => if p c then match_star p s' (λ s'', k s'' gs) else None
      | [] => None
      end
  | LazyStar p => match_lazy p s (λ s', k s' gs)
  | Opt r' =>
      match match_re r' s gs k with
      | Some t => Some t
      | None => k s gs
      end
  | Group r' =>
      match_re r' s gs
        (λ s' gs', k s' (gs' ++ [take (length s - length s') s]))
  | Seq r1 r2 => match_re r1 s gs (λ s' gs', match_re r2 s' gs' k)
  end.
End matcher.

(** A match object: [m.start()], [m.end()] and the groups. *)
Record match_obj : Type := Match {
  m_start : nat;
  m_end : nat;
  m_groups : list str
}.

(** Match at the head of [s], which begins at offset [pos]. *)
Definition match_at (r : regex) (pos : nat) (s : str) : option match_obj :=
  match_re r s []
    (λ s' gs, Some (Match pos (pos + (length s - length s')) gs)).

(** [re.search(r, s)]: the match at the leftmost offset that has one. *)
Fixpoint search_from (r : regex) (pos : nat) (s : str) : option match_obj :=
  match match_at r pos s with
  | Some m => Some m
  | None =>
      match s with
      | _ :: s' => search_from r (S pos) s'
      | [] => None
      end
  end.

Definition search (r : regex) (s : str) : option match_obj :=
  search_from r 0 s.

(** The least number of characters a match of [r] takes. *)
Fixpoint min_len (r : regex) : nat :=
  match r with
  | Lit l => length l
  | Cls _ => 1
  | Star _ => 0
  | Plus _ => 1
  | LazyStar _ => 0
  | Opt _ => 0
  | Group r' => min_len r'
  | Seq r1 r2 => min_len r1 + min_len r2
  end.

(** Patterns without a choice: literals and single characters. *)
Fixpoint simple (r : regex) : bool :=
  match r with
  | Lit _ | Cls _ => true
  | Seq r1 r2 => simple r1 && simple r2
  | _ => false
  end.

(** What a simple pattern leaves of the input, if it matches. *)
Fixpoint consume (r : regex) (s : str) : option str :=
  match r with
  | Lit l => match_lit l s
  | Cls p =>
      match s with
      | c :: s' => if p c then Some s' else None
      | [] => None
      end
  | Seq r1 r2 =>
      match consume r1 s with
      | Some s' => consume r2 s'
      | None => None
      end
  | _ => None
  end.

(** [re.fullmatch(r, s)] *)
Definition fullmatch (r : regex) (s : str) : bool :=
  match match_re r s [] (λ s' _, if s' is [] then Some () else None) with
  | Some _ => true
  | None => false
  end.
(** [m.group(i)] for [i >= 1]. *)
Definition group (m : match_obj) (i : nat) : str :=
  default [] (m_groups m !! (i - 1)).

End Re.

(** ** The handler calls of [html.parser.HTMLParser]

    [attrs] is the list of (name, value) pairs of a start tag; the value
    of an attribute written without one is [None]. *)

Inductive event : Type :=
  | StartTag (tag : string) (attrs : list (string * option str))
  | Data (data : str)
  | EndTag (tag : string).

(** [dict(attrs)]: a later pair overrides an earlier one with its key. *)
Definition dict (attrs : list (string * option str))
  : gmap string (option str) :=
  foldl (λ d kv, <[kv.1 := kv.2]> d) ∅ attrs.

(** ** [class VAAParser] *)

Module VAAParser.

Import Re.

(** ["VA (EXTENDED )?ADVISORY"] *)
Definition header_re : regex :=
  seq [Lit "VA "; Opt (Group (Lit "EXTENDED ")); Lit "ADVISORY"].

(** ["NXT ADVISORY:\s*\w+.*?\n"] *)
Definition final_re : regex :=
  seq [Lit "NXT ADVISORY:"; Star Str.is_space; Plus Str.is_word;
       LazyStar Str.is_dot; Lit [Str.newline]].

Record state : Type := State {
  active : bool;
  text : str
}.

(** [__init__] *)
Definition init : state := State false [].

Definition handle_starttag (self : state) (tag : string)
    (attrs : list (string * option str)) : state :=
  self.

Definition handle_data (self : state) (data : str) : state :=
  let data := Str.strip data in
  if 0 <? length data then
    if active self then
      State true (text self ++ data ++ " ")
    else
      match search header_re data with
      | Some m => State true (drop (m_start m) data)
      | None => self
      end
  else self.

Definition structural : list string :=
  ["h1"; "h2"; "h3"; "div"; "p"; "br"; "code"]%string.

Definition handle_endtag (self : state) (tag : string) : state :=
  if active self then
    let text1 :=
      if bool_decide (tag ∈ structural)
      then Str.rstrip (text self) ++ [Str.newline]
      else text self in
    (* Final statement in VAA message *)
    match search final_re text1 with
    | Some m => State false (take (m_end m) text1)
    | None => State true text1
    end
  else self.

Definition step (self : state) (ev : event) : state :=
  match ev with
  | StartTag tag attrs => handle_starttag self tag attrs
  | Data data => handle_data self data
  | EndTag tag => handle_endtag self tag
  end.

(** The handler calls of one page, in order. *)
Definition run (self : state) (page : list event) : state :=
  foldl step self page.

(** [feed]: [self.anchors = []] touches neither [active] nor [text]. *)
Definition feed (self : state) (page : list event) : state :=
  run self page.

(** [p = VAAParser(); p.feed(html); p.close(); p.text] *)
Definition parse (page : list event) : str := text (feed init page).

(** A handler call that is not a text chunk with one of the two header
    phrases in it. *)
Definition no_header (ev : event) : bool :=
  match ev with
  | Data data =>
      negb (Str.contains "VA ADVISORY" data)
      && negb (Str.contains "VA EXTENDED ADVISORY" data)
  | _ => true
  end.

(** A handler call that leaves an active parser as it is unless the
    final statement is found: a start tag, a chunk of white space only,
    or the end tag of an element that is not structural. *)
Definition quiet (ev : event) : bool :=
  match ev with
  | StartTag _ _ => true
  | Data data => length (Str.strip data) =? 0
  | EndTag tag => negb (bool_decide (tag ∈ structural))
  end.

(** The page text of the example of the specification, and the text it
    expects. *)
Definition example_message : str :=
  "VA ADVISORY Ash cloud observed at FL350. NXT ADVISORY: NO FURTHER ADVISORIES"
  ++ [Str.newline].

Definition example_text : str :=
  "...junk... " ++ example_message ++ "more text after".

End VAAParser.

(** ** [class ToulouseFetcher.ListParser] *)

Module ListParser.

Import Re.

(** The pattern of [handle_endtag]: group 1 is a greedy run of [.],
    followed by [ - ], group 2 [\d\d\d\d-\d\d-\d\d \d\d:\d\d]
    ([date_re]) and [ utc]. *)
Definition date_re : regex :=
  let d := Cls Str.is_digit in
  seq [d; d; d; d; Lit "-"; d; d; Lit "-"; d; d; Lit " "; d; d; Lit ":"; d; d].

Definition item_re : regex :=
  seq [Group (Star Str.is_dot); Lit " - "; Group date_re; Lit " utc"].

(** An entry of [anchors]: [(href, volcano, date)].  [href] is [None]
    when the [href] attribute was written without a value. *)
Definition entry : Type := option str * str * str.

Record state : Type := State {
  active : bool;
  href : option str;
  text : str;
  anchors : list entry
}.

(** [__init__] *)
Definition init : state := State false (Some []) [] [].

Definition handle_starttag (self : state) (tag : string)
    (attrs : list (string * option str)) : state :=
  let self :=
    if bool_decide (tag = "ul"%string)
    then State true (href self) (text self) (anchors self)
    else self in
  if active self then
    if bool_decide (tag = "a"%string) then
      match dict attrs !! "href"%string with
      | Some v => State (active self) v (text self) (anchors self)
      | None => self                               (* KeyError: pass *)
      end
    else self
  else self.

Definition handle_data (self : state) (data : str) : state :=
  if active self then
    State (active self) (href self) (text self ++ Str.strip data)
      (anchors self)
  else self.

Definition handle_endtag (self : state) (tag : string) : state :=
  let self :=
    if bool_decide (tag = "ul"%string)
    then State false (href self) (text self) (anchors self)
    else self in
  if active self then
    if bool_decide (tag = "li"%string) then
      let anchors1 :=
        match search item_re (text self) with
        | Some m =>
            let volcano := group m 1 in
            let date := group m 2 in
            anchors self ++ [(href self, volcano, date)]
        | None => anchors self
        end in
      State (active self) (Some []) [] anchors1
    else self
  else self.

Definition step (self : state) (ev : event) : state :=
  match ev with
  | StartTag tag attrs => handle_starttag self tag attrs
  | Data data => handle_data self data
  | EndTag tag => handle_endtag self tag
  end.

Definition run (self : state) (page : list event) : state :=
  foldl step self page.

(** [feed] resets nothing. *)
Definition feed (self : state) (page : list event) : state :=
  run self page.

(** The list item of the example of the specification. *)
Definition example_item : list event :=
  [StartTag "ul" []; StartTag "li" [];
   StartTag "a" [("href"%string, Some ("/adv/123.html" : str))];
   Data "Volcano X - 2020-05-01 12:00 utc"; EndTag "a"; EndTag "li";
   EndTag "ul"].

End ListParser.

(** ** [class LondonFetcher.TableParser] *)

Module TableParser.

(** A cell: [{'text': ..., 'href': ...}]. *)
Record cell : Type := Cell {
  c_text : str;
  c_href : option str
}.

Record state : Type := State {
  href : option str;
  text : str;
  row : list cell;
  rows : list (list cell)
}.

(** [__init__] *)
Definition init : state := State (Some []) [] [] [].

Definition handle_starttag (self : state) (tag : string)
    (attrs : list (string * option str)) : state :=
  let self :=
    if bool_decide (tag = "tbody"%string)
    then State (Some []) [] [] []
    else self in
  if bool_decide (tag = "a"%string) then
    match dict attrs !! "href"%string with
    | Some v => State v (text self) (row self) (rows self)
    | None => self                                 (* KeyError: pass *)
    end
  else self.

Definition handle_data (self : state) (data : str) : state :=
  State (href self) (text self ++ Str.strip data) (row self) (rows self).

Definition handle_endtag (self : state) (tag : string) : state :=
  let self :=
    if bool_decide (tag = "td"%string)
    then State (Some []) [] (row self ++ [Cell (text self) (href self)])
           (rows self)
    else self in
  if bool_decide (tag = "tr"%string) then
    let rows1 :=
      if 0 <? length (row self) then rows self ++ [row self]
      else rows self in
    State (href self) (text self) [] rows1
  else self.

Definition step (self : state) (ev : event) : state :=
  match ev with
  | StartTag tag attrs => handle_starttag self tag attrs
  | Data data => handle_data self data
  | EndTag tag => handle_endtag self tag
  end.

Definition run (self : state) (page : list event) : state :=
  foldl step self page.

(** [feed]: [self.rows = []], then the handler calls. *)
Definition feed (self : state) (page : list event) : state :=
  run (State (href self) (text self) (row self) []) page.

(** A handler call that is not the start of a [tbody]. *)
Definition no_tbody (ev : event) : bool :=
  match ev with
  | StartTag tag _ => negb (bool_decide (tag = "tbody"%string))
  | _ => true
  end.

End TableParser.

(** ** [class Parser]

    [self.text] and [self.table_row] are list objects that [anchors] and
    [table_row] keep references to while the handlers go on changing
    them in place ([+=] on a list and [append]).  The state therefore
    holds a store of list objects; a reference is an index into it. *)

Module Parser.

Abbreviation ref := nat.

Record state : Type := State {
  href : option str;
  text : ref;                               (* into [texts] *)
  table_row : ref;                          (* into [tables] *)
  anchors : list (option str * ref * ref);
  texts : list (list str);                  (* the lists of strings *)
  tables : list (list ref)                  (* the lists of such lists *)
}.

(** [__init__] *)
Definition init : state := State (Some []) 0 0 [] [[]] [[]].

Definition handle_starttag (self : state) (tag : string)
    (attrs : list (string * option str)) : state :=
  if bool_decide (tag = "a"%string) then
    let href1 :=
      match dict attrs !! "href"%string with
      | Some v => v
      | None => Some []                            (* KeyError: pass *)
      end in
    State href1 (text self) (table_row self) (anchors self) (texts self)
      (tables self)
  else if bool_decide (tag = "tr"%string) || bool_decide (tag = "li"%string)
  then
    State (href self) (text self) (length (tables self)) (anchors self)
      (texts self) (tables self ++ [[]])
  else self.

Definition handle_data (self : state) (data : str) : state :=
  State (href self) (text self) (table_row self) (anchors self)
    (alter (λ t, t ++ [Str.strip data]) (text self) (texts self))
    (tables self).

Definition handle_endtag (self : state) (tag : string) : state :=
  if bool_decide (tag = "a"%string) then
    State (href self) (text self) (table_row self)
      (anchors self ++ [(href self, text self, table_row self)])
      (texts self) (tables self)
  else if bool_decide (tag = "td"%string) || bool_decide (tag = "li"%string)
  then
    State (href self) (length (texts self)) (table_row self) (anchors self)
      (texts self ++ [[]])
      (alter (λ r, r ++ [text self]) (table_row self) (tables self))
  else self.

Definition step (self : state) (ev : event) : state :=
  match ev with
  | StartTag tag attrs => handle_starttag self tag attrs
  | Data data => handle_data self data
  | EndTag tag => handle_endtag self tag
  end.

Definition run (self : state) (page : list event) : state :=
  foldl step self page.

(** [feed]: [self.anchors = []], then the handler calls. *)
Definition feed (self : state) (page : list event) : state :=
  run (State (href self) (text self) (table_row self) [] (texts self)
         (tables self)) page.

(** What a reader of [p.anchors] sees: the tuples with the current
    contents of the list objects they refer to. *)
Definition entry : Type := option str * list str * list (list str).

Definition deref_text (self : state) (t : ref) : list str :=
  default [] (texts self !! t).

Definition deref_table (self : state) (r : ref) : list (list str) :=
  deref_text self <$> default [] (tables self !! r).

Definition view (self : state) : list entry :=
  (λ a : option str * ref * ref,
     (a.1.1, deref_text self a.1.2, deref_table self a.2)) <$> anchors self.

End Parser.

(** ** The library functions the fetchers call *)

Record datetime : Type := DateTime {
  year : nat; month : nat; day : nat;
  hour : nat; minute : nat; second : nat
}.

(** What [urlopen(...).read()] returns is [bytes]; after a successful
    [decode()] the program holds a [str]. *)
Inductive buffer : Type :=
  | Bytes (b : list ascii)
  | Text (s : str).

Record world : Type := World {
  (** [urllib.request.urlopen(url).read()] *)
  urlopen_read : str → result (list ascii);
  (** [bytes.decode()]; [None] stands for [UnicodeDecodeError] *)
  decode : list ascii → option str;
  (** the handler calls of [HTMLParser.feed(text)] and [close()], or the
      exception the library raises on the text (an [AssertionError] on
      a marked section it cannot parse, for one).  No caller in the
      program catches it, so the handler calls made before it are seen
      by nobody. *)
  scan : str → result (list event);
  (** [urllib.parse.urljoin(base, url)]; [url] may be [None]; raises
      [ValueError] on a link it cannot split *)
  urljoin : str → option str → result str;
  (** [datetime.datetime.strptime(text, format)] *)
  strptime : str → str → result datetime;
  (** [d.strftime(format)] and [str(d)] *)
  strftime : datetime → str → str;
  datetime_str : datetime → str;
  (** [datetime.datetime.now()] *)
  now : datetime;
  (** [os.path.exists(path)] *)
  path_exists : str → bool;
  (** [QApplication.translate("Fetcher", "(converted)")] *)
  converted : str
}.

(** [os.path.join(a, b)] of [posixpath]. *)
Definition path_join (a b : str) : str :=
  if Str.startswith b "/" then b
  else if bool_decide (a = []) || Str.endswith a "/" then a ++ b
  else a ++ "/" ++ b.

(** [l[-n]] for [n >= 1]. *)
Definition index_back {A} (l : list A) (n : nat) : result A :=
  if n <=? length l then
    match l !! (length l - n) with
    | Some x => Ok x
    | None => Raise IndexError
    end
  else Raise IndexError.

(** [l[i]] for [i >= 0]. *)
Definition index {A} (l : list A) (i : nat) : result A :=
  match l !! i with
  | Some x => Ok x
  | None => Raise IndexError
  end.

(** [x.split("/")] for an [x] that is a [str] or [None]. *)
Definition split_slash (x : option str) : result (list str) :=
  match x with
  | Some s => Ok (Str.split "/" s)
  | None => Raise AttributeError
  end.

(** One entry of the list widget: a [QListWidgetItem] with the
    attributes the fetchers give it. *)
Record item : Type := Item {
  label : str;                    (* [item.text()] *)
  filename : str;
  url : str;
  content : option str;
  vag : option str
}.

(** ** [class Fetcher] and its subclasses *)

Module Fetcher.

Section fetcher.
Variable w : world.

(** [try: data = data.decode() except (UnicodeDecodeError, AttributeError): pass] *)
Definition decode_or_pass (data : buffer) : buffer :=
  match data with
  | Bytes b =>
      match decode w b with
      | Some s => Text s
      | None => data                              (* UnicodeDecodeError *)
      end
  | Text _ => data                                (* AttributeError *)
  end.

(** [html.parser.HTMLParser.feed(self, data)]: [self.rawdata + data]
    raises [TypeError] when [data] is still [bytes]; on a [str] the
    library makes its handler calls or raises. *)
Definition html_feed (data : buffer) : result (list event) :=
  match data with
  | Text s => scan w s
  | Bytes _ => Raise TypeError
  end.

(** The [feed] methods on a buffer. *)
Definition Parser_feed (self : Parser.state) (data : buffer)
  : result Parser.state :=
  page ← html_feed (decode_or_pass data); Ok (Parser.feed self page).

Definition VAAParser_feed (self : VAAParser.state) (data : buffer)
  : result VAAParser.state :=
  page ← html_feed (decode_or_pass data); Ok (VAAParser.feed self page).

Definition ListParser_feed (self : ListParser.state) (data : buffer)
  : result ListParser.state :=
  page ← html_feed (decode_or_pass data); Ok (ListParser.feed self page).

Definition TableParser_feed (self : TableParser.state) (data : buffer)
  : result TableParser.state :=
  page ← html_feed (decode_or_pass data); Ok (TableParser.feed self page).

(** [Fetcher.hasExistingFile] *)
Definition hasExistingFile (output_dir href : str) : bool :=
  let file_name := default [] (last (Str.split "/" href)) in
  let vaa_file := path_join output_dir file_name in
  let kml_file :=
    if Str.endswith vaa_file ".html"
    then Str.replace ".html" ".kml" file_name
    else file_name ++ ".kml" in
  path_exists w (path_join output_dir kml_file).

(** [if self.hasExistingFile(output_dir, item.filename): item.setText(...)] *)
Definition mark_converted (output_dir : str) (it : item) : item :=
  if hasExistingFile output_dir (filename it)
  then Item (label it ++ " " ++ converted w) (filename it) (url it)
         (content it) (vag it)
  else it.

(** [read_message] of [ToulouseFetcher] and of [LondonFetcher]. *)
Definition read_message (url : str) : result str :=
  html ← urlopen_read w url;
  let html := decode_or_pass (Bytes html) in
  p ← VAAParser_feed VAAParser.init html;
  Ok (VAAParser.text p).

(** The tail shared by the three [fetch] loops.  [body] is the loop body
    up to [vaaList.addItem(item)]: it gives the item to add, [None] when
    the entry is passed over ([continue], or the condition of the [if]
    is false), or raises.  The result is the list widget and the
    exception that ended the loop, if any.
<<
    for entry in entries:
        item = body(entry)
        vaaList.addItem(item)
        count += 1
        if count == self.number_to_fetch:
            break
>> *)
Fixpoint fetch_loop {E} (body : E → result (option item))
    (number_to_fetch count : nat) (entries : list E) (vaaList : list item)
  : list item * option exn :=
  match entries with
  | [] => (vaaList, None)
  | entry :: rest =>
      match body entry with
      | Raise e => (vaaList, Some e)
      | Ok None => fetch_loop body number_to_fetch count rest vaaList
      | Ok (Some it) =>
          let vaaList := vaaList ++ [it] in
          let count := count + 1 in
          if count =? number_to_fetch then (vaaList, None)
          else fetch_loop body number_to_fetch count rest vaaList
      end
  end.

End fetcher.
End Fetcher.

Module FetcherSpec.
(** The name of the converted file as the specification derives it from
    [href]: the last path segment, with every [.html] replaced by
    [.kml] when the segment ends in [.html], and with [.kml] appended
    otherwise. *)
Definition kml_name (href : str) : str :=
  let segment := default [] (last (Str.split "/" href)) in
  if Str.endswith segment ".html"
  then Str.replace ".html" ".kml" segment
  else segment ++ ".kml".
End FetcherSpec.


Module ToulouseFetcher.

Definition url : str := "http://vaac.meteo.fr/advisory/".
Definition number_to_fetch : nat := 10.

Section fetch.
Variable w : world.
Variable output_dir : str.

(** The body of the loop over [p.anchors]. *)
Definition body (entry : ListParser.entry) : result (option item) :=
  let '(href, volcano, date) := entry in
  (* The date is encoded in the URL for the advisory. *)
  info ← split_slash href;
  let label := date ++ " (" ++ volcano ++ ")" in
  seg ← index_back info 2;
  let filename := "toulouse." ++ seg ++ ".html" in
  let url := default [] href in
  content ← Fetcher.read_message w url;
  let vag :=
    Str.join "/" (take (length info - 2) info) ++ "/" ++ seg ++ "_vag.png" in
  Ok (Some (Fetcher.mark_converted w output_dir
              (Item label filename url (Some content) (Some vag)))).

(** The loop of [fetch] on the entries of the parsed list page. *)
Definition assemble (anchors : list ListParser.entry)
  : list item * option exn :=
  Fetcher.fetch_loop body number_to_fetch 0 anchors [].

(** [fetch], from an empty list widget. *)
Definition fetch : list item * option exn :=
  match urlopen_read w url with
  | Raise e => ([], Some e)
  | Ok html =>
      match Fetcher.ListParser_feed w ListParser.init (Bytes html) with
      | Raise e => ([], Some e)
      | Ok p => assemble (ListParser.anchors p)
      end
  end.

End fetch.
End ToulouseFetcher.

Module AnchorageFetcher.

Definition url : str := "http://vaac.arh.noaa.gov/list_vaas.php".
Definition number_to_fetch : nat := 10.

Section fetch.
Variable w : world.
Variable output_dir : str.

(** [strptime(x, format)] for an [x] that is a list: not a [str]. *)
Definition strptime_of_list (x : list str) (format : str)
  : result datetime :=
  Raise TypeError.

(** [x.replace(old, new)] for an [x] that is a list: no such method. *)
Definition replace_of_list (x : list str) (old new : str) : result str :=
  Raise AttributeError.

(** The body of the loop over [p.anchors]. *)
Definition body (entry : Parser.entry) : result (option item) :=
  let '(href, text, table_text) := entry in
  let text := Str.join [] text in
  selected ←
    (if bool_decide (text = "X") then
       info ← split_slash href;
       seg ← index_back info 2;
       Ok (bool_decide ((seg : str) = "VAA"))
     else Ok false : result bool);
  if selected : bool then
    (* The date is encoded in the associated table text. *)
    cell0 ← index table_text 0;
    d ← strptime_of_list cell0 "%Y-%m-%d %H:%M:%S";
    let date := strftime w d "%Y-%m-%d %H:%M:%S" in
    cell1 ← index table_text 1;
    volcano ← replace_of_list cell1 "_" " ";
    let label := date ++ " (" ++ volcano ++ ")" in
    let href := default [] href in
    item_url ← urljoin w url (Some href);
    Ok (Some (Fetcher.mark_converted w output_dir
                (Item label href item_url None None)))
  else Ok None.

Definition assemble (anchors : list Parser.entry)
  : list item * option exn :=
  Fetcher.fetch_loop body number_to_fetch 0 anchors [].

Definition fetch : list item * option exn :=
  match urlopen_read w url with
  | Raise e => ([], Some e)
  | Ok html =>
      match Fetcher.Parser_feed w Parser.init (Bytes html) with
      | Raise e => ([], Some e)
      | Ok p => assemble (Parser.view p)
      end
  end.

End fetch.
End AnchorageFetcher.

Module LondonFetcher.

Definition url : str :=
  "http://www.metoffice.gov.uk/aviation/vaac/vaacuk.html".
Definition number_to_fetch : nat := 10.

Section fetch.
Variable w : world.
Variable output_dir : str.

(** [try: date = strptime(row[1]['text'], ...)  except: continue] *)
Definition row_date (row : list TableParser.cell) : option datetime :=
  match
    (c ← index row 1; strptime w (TableParser.c_text c) "%H:%M on %d %b %Y")
  with
  | Ok d => Some d
  | Raise _ => None
  end.

(** The body of the loop over [p.rows]. *)
Definition body (row : list TableParser.cell) : result (option item) :=
  c0 ← index row 0;
  let volcano := TableParser.c_text c0 in
  match row_date row with
  | None => Ok None                                         (* continue *)
  | Some date =>
      c2 ← index row 2;
      advisory_url ← urljoin w url (TableParser.c_href c2);
      c3 ← index row 3;
      graphic_url ← urljoin w url (TableParser.c_href c3);
      let label := datetime_str w date ++ " (" ++ volcano ++ ")" in
      let filename := "london." ++ strftime w date "%Y%m%d%H%M" in
      content ← Fetcher.read_message w advisory_url;
      Ok (Some (Fetcher.mark_converted w output_dir
                  (Item label filename advisory_url (Some content)
                     (Some graphic_url))))
  end.

Definition assemble (rows : list (list TableParser.cell))
  : list item * option exn :=
  Fetcher.fetch_loop body number_to_fetch 0 rows [].

Definition fetch : list item * option exn :=
  match urlopen_read w url with
  | Raise e => ([], Some e)
  | Ok html =>
      let html := Fetcher.decode_or_pass w (Bytes html) in
      match Fetcher.TableParser_feed w TableParser.init html with
      | Raise e => ([], Some e)
      | Ok p => assemble (TableParser.rows p)
      end
  end.

End fetch.
End LondonFetcher.

Module TestFetcher.

Definition url : str :=
  "https://github.com/metno/fetch-vaa/raw/master/files/london-201511101500.vaa.txt".
Definition number_to_fetch : nat := 1.

Section fetch.
Variable w : world.
Variable output_dir : str.

(** The loop over the lines: the last [DTG:] and [VOLCANO:] lines win. *)
Fixpoint scan_lines (lines : list str) (date : datetime) (volcano : str)
  : result (datetime * str) :=
  match lines with
  | [] => Ok (date, volcano)
  | line :: rest =>
      date ←
        (if Str.startswith line "DTG:"
         then strptime w (Str.lstrip (drop 4 line)) "%Y%m%d/%H%MZ"
         else Ok date);
      let volcano :=
        if Str.startswith line "VOLCANO:"
        then Str.lstrip (drop 8 line) else volcano in
      scan_lines rest date volcano
  end.

Definition fetch : list item * option exn :=
  match urlopen_read w url with
  | Raise e => ([], Some e)
  | Ok text =>
      match Fetcher.decode_or_pass w (Bytes text) with
      | Bytes _ => ([], Some TypeError)        (* [text.split("\n")] *)
      | Text text =>
          match scan_lines (Str.split Str.newline text) (now w) "Unknown" with
          | Raise e => ([], Some e)
          | Ok (date, volcano) =>
              let label :=
                strftime w date "%Y-%m-%d %H:%M:%S" ++ " (" ++ volcano ++ ")" in
              let filename := "test." ++ strftime w date "%Y%m%d%H%M" in
              ([Fetcher.mark_converted w output_dir
                  (Item label filename url (Some text) None)], None)
          end
      end
  end.

End fetch.
End TestFetcher.

(** ** Test fixtures and specification predicates *)

Module Fixtures.
(** A world without network and without files. *)
Definition offline : world :=
  {| urlopen_read := λ _, Raise URLError;
     decode := λ b, Some b;
     scan := λ _, Ok [];
     urljoin := λ base url, Ok (default base url);
     strptime := λ _ _, Raise ValueError;
     strftime := λ _ _, [];
     datetime_str := λ _, [];
     now := DateTime 1970 1 1 0 0 0;
     path_exists := λ _, false;
     converted := "(converted)" |}.

(** An anchor marked [X] whose [href] has one path segment only. *)
Definition short_href_page : list event :=
  [StartTag "tr" []; Data "2020-05-01 12:00:00"; EndTag "td";
   Data "Mt_X"; EndTag "td";
   StartTag "a" [("href"%string, Some ("list_vaas.php" : str))];
   Data "X"; EndTag "a"; EndTag "td"; EndTag "tr"].

(** A row of the Anchorage list whose first cell is not a timestamp,
    followed by a row whose first cell is one. *)
Definition bad_date_page : list event :=
  [StartTag "tr" []; Data "not a date"; EndTag "td";
   Data "Mt_X"; EndTag "td";
   StartTag "a" [("href"%string, Some ("/VAA/1.html" : str))];
   Data "X"; EndTag "a"; EndTag "td"; EndTag "tr";
   StartTag "tr" []; Data "2020-05-01 12:00:00"; EndTag "td";
   Data "Mt_Y"; EndTag "td";
   StartTag "a" [("href"%string, Some ("/VAA/2.html" : str))];
   Data "X"; EndTag "a"; EndTag "td"; EndTag "tr"].
End Fixtures.


Module FetchSpec.
(** The items were made, one each and in this order, from a subsequence
    of the entries. *)
Definition in_document_order {E} (body : E → result (option item))
    (entries : list E) (items : list item) : Prop :=
  ∃ picked,
    picked `sublist_of` entries
    ∧ Forall2 (λ entry it, body entry = Ok (Some it)) picked items.
End FetchSpec.


Module VAADefs.
Import Str.
(** [t] begins with one of the two header phrases. *)
Definition has_header (t : str) : bool :=
  startswith t "VA ADVISORY" || startswith t "VA EXTENDED ADVISORY".

(** What a run of text chunks adds to the buffer of an active parser:
    each chunk stripped and, unless empty, followed by one space. *)
Definition appended (chunks : list str) : str :=
  concat ((λ data, if 0 <? length (strip data) then strip data ++ " " else [])
            <$> chunks).
End VAADefs.


Module ListDefs.
(** A handler call that is not the start of a [ul]. *)
Definition no_ul (ev : event) : bool :=
  match ev with
  | StartTag tag _ => negb (bool_decide (tag = "ul"%string))
  | _ => true
  end.

(** A date of sixteen characters with [-] as the fifth and the eighth,
    a space as the eleventh and [:] as the fourteenth. *)
Definition date_shape (date : str) : bool :=
  match date with
  | [_; _; _; _; a; _; _; b; _; _; c; _; _; d; _; _] =>
      bool_decide (a = "-"%char) && bool_decide (b = "-"%char)
      && bool_decide (c = " "%char) && bool_decide (d = ":"%char)
  | _ => false
  end.

(** An entry whose volcano has no newline in it and whose date has the
    shape of the pattern. *)
Definition well_formed (e : ListParser.entry) : bool :=
  forallb Str.is_dot e.1.2 && date_shape e.2.
End ListDefs.


Module TableDefs.
(** The number of [td] end tags of a page. *)
Definition is_td_end (ev : event) : bool :=
  match ev with EndTag tag => bool_decide (tag = "td"%string) | _ => false end.

Definition count_td (page : list event) : nat :=
  length (List.filter is_td_end page).
End TableDefs.


Module ParserDefs.
Import Parser.
(** The shape of the object store of a [Parser]: [self.text] is the
    newest list of strings, [self.table_row] is a list of the store, and
    no row holds [self.text] yet. *)
Definition wf (self : state) : bool :=
  (S (text self) =? length (texts self))
  && (table_row self <? length (tables self))
  && forallb (forallb (λ t, t <? text self)) (tables self).
End ParserDefs.


Module LoopDefs.
(** The items of the entries whose loop body gives one. *)
Definition successes {E} (body : E → result (option item))
    (entries : list E) : list item :=
  omap (λ e, match body e with Ok o => o | Raise _ => None end) entries.

(** The loop body does not raise at [e]. *)
Definition passes {E} (body : E → result (option item)) (e : E) : bool :=
  match body e with Ok _ => true | Raise _ => false end.
End LoopDefs.


Module FixtureDefs.
(** A world in which every download gives a page with an advisory and
    every date parses. *)
Definition served : world :=
  {| urlopen_read := λ _, Ok (list_ascii_of_string "page");
     decode := λ b, Some b;
     scan := λ _, Ok [Data "VA ADVISORY"; Data "DTG: 20200501/1200Z"];
     urljoin := λ base url, Ok (default base url);
     strptime := λ _ _, Ok (DateTime 2020 5 1 12 0 0);
     strftime := λ _ _, "202005011200";
     datetime_str := λ _, "2020-05-01 12:00:00";
     now := DateTime 1970 1 1 0 0 0;
     path_exists := λ _, false;
     converted := "(converted)" |}.

(** A world in which every date parses, no link can be joined to the
    address of the page, and the library cannot parse any page. *)
Definition bad_links : world :=
  {| urlopen_read := λ _, Ok (list_ascii_of_string "page");
     decode := λ b, Some b;
     scan := λ _, Raise AssertionError;
     urljoin := λ _ _, Raise ValueError;
     strptime := λ _ _, Ok (DateTime 2020 5 1 12 0 0);
     strftime := λ _ _, "202005011200";
     datetime_str := λ _, "2020-05-01 12:00:00";
     now := DateTime 1970 1 1 0 0 0;
     path_exists := λ _, false;
     converted := "(converted)" |}.
End FixtureDefs.


Module Window.
Section convertAdvisories.
Variable w : world.
Variable output_dir : str.

(** [file_name = href.split("/")[-1]] and
    [vaa_file = os.path.join(self.output_dir, file_name)],
    for [href = item.filename]. *)
Definition file_name (href : str) : str :=
  default [] (last (Str.split "/" href)).

Definition vaa_file (href : str) : str :=
  path_join output_dir (file_name href).

(** [kml_file], after [kml_file = os.path.join(self.output_dir, kml_file)]. *)
Definition kml_file (href : str) : str :=
  let kml_file :=
    if Str.endswith (vaa_file href) ".html"
    then Str.replace ".html" ".kml" (file_name href)
    else file_name href ++ ".kml" in
  path_join output_dir kml_file.

(** [if not item.content: item.content = urlopen(url).read()], with the
    [decode] that follows it. *)
Definition read_content (it : item) : result buffer :=
  match content it with
  | Some (c :: s) => Ok (Text (c :: s))
  | _ =>
      b ← urlopen_read w (url it);
      Ok (Fetcher.decode_or_pass w (Bytes b))
  end.

(** Wrap any non-HTML content in a [<pre>] element.  On [bytes] the
    comparison with ["<"] is unequal, and the concatenation with a
    [str] raises [TypeError]. *)
Definition wrap (vaa_content : buffer) : result str :=
  match vaa_content with
  | Text s =>
      Ok (if bool_decide (take 1 (Str.lstrip s) = "<") then s
          else "<pre>" ++ [Str.newline] ++ s ++ [Str.newline] ++ "</pre>"
               ++ [Str.newline])
  | Bytes _ => Raise TypeError
  end.

(** [if not vaa_file.endswith(".html"): vaa_file += ".html"]: the file
    that is written and given to the converter. *)
Definition html_file (href : str) : str :=
  if Str.endswith (vaa_file href) ".html" then vaa_file href
  else vaa_file href ++ ".html".

End convertAdvisories.
End Window.


Module TestDefs.
(** A [DTG:] line whose date does not parse. *)
Definition bad_dtg (w : world) (line : str) : bool :=
  Str.startswith line "DTG:"
  && match strptime w (Str.lstrip (drop 4 line)) "%Y%m%d/%H%MZ" with
     | Ok _ => false
     | Raise _ => true
     end.
End TestDefs.


Module TableSpec.
Import TableParser.
(** The handler calls of a table written out in full.  A cell is given
    by its link, if it has one, and its text chunks; a row by its
    cells. *)
Definition cell_events (c : option str * list str) : list event :=
  match c.1 with
  | Some h =>
      StartTag "td" [] :: StartTag "a" [("href"%string, Some h)]
      :: (Data <$> c.2) ++ [EndTag "a"; EndTag "td"]
  | None => StartTag "td" [] :: (Data <$> c.2) ++ [EndTag "td"]
  end.

Definition row_events (cells : list (option str * list str)) : list event :=
  StartTag "tr" [] :: concat (cell_events <$> cells) ++ [EndTag "tr"].

Definition rows_events (rws : list (list (option str * list str)))
  : list event :=
  concat (row_events <$> rws).

(** The rows expected of them: a row without cells gives none. *)
Definition cell_of (c : option str * list str) : cell :=
  Cell (concat (Str.strip <$> c.2)) (Some (default [] c.1)).

Definition rows_of (rws : list (list (option str * list str)))
  : list (list cell) :=
  (λ cells : list (option str * list str), cell_of <$> cells)
  <$> List.filter (λ cells, 0 <? length cells) rws.
End TableSpec.


(** * Properties *)

(** ** Strings *)

Module StrFacts.
Import Str.

Lemma startswith_prefix (s p : str) :
  startswith s p = true ↔ p `prefix_of` s.
Proof.
  revert s; induction p as [|a p IH]; intros s; simpl.
  - split; [intros _; apply prefix_nil | done].
  - destruct s as [|b s].
    + split; [done | intros H; by apply prefix_nil_inv in H].
    + rewrite andb_true_iff, bool_decide_eq_true, IH. split.
      * intros [-> H]. by apply prefix_cons.
      * intros H. split; [by eapply prefix_cons_inv_1 | by eapply prefix_cons_inv_2].
Qed.

Lemma startswith_app (p s : str) : startswith (p ++ s) p = true.
Proof. apply startswith_prefix. by apply prefix_app_r. Qed.

Lemma endswith_suffix (s p : str) :
  endswith s p = true ↔ p `suffix_of` s.
Proof.
  unfold endswith. rewrite startswith_prefix. symmetry. apply suffix_prefix_reverse.
Qed.

(** [contains] is the substring relation. *)
Lemma contains_spec (sub s : str) :
  contains sub s = true ↔ ∃ pre post : str, s = pre ++ sub ++ post.
Proof.
  induction s as [|c s IH]; simpl.
  - rewrite orb_false_r, startswith_prefix. split.
    + intros [post ->]. by exists [], post.
    + intros (pre & post & H). destruct pre; [by exists post|done].
  - rewrite orb_true_iff, startswith_prefix, IH. split.
    + intros [[post ->]|(pre & post & ->)].
      * by exists [], post.
      * by exists (c :: pre), post.
    + intros (pre & post & H). destruct pre as [|c' pre]; simpl in H.
      * left. by exists post.
      * right. injection H as -> ->. by exists pre, post.
Qed.

Lemma contains_app (sub pre s post : str) :
  contains sub s = true → contains sub (pre ++ s ++ post) = true.
Proof.
  rewrite !contains_spec. intros (a & b & ->).
  exists (pre ++ a), (b ++ post). by rewrite <- !(assoc_L (++)).
Qed.

Lemma lstrip_suffix (s : str) : ∃ pre : str, s = pre ++ lstrip s.
Proof.
  induction s as [|c s [pre IH]]; simpl.
  - by exists [].
  - destruct (is_space c).
    + exists (c :: pre). simpl. by f_equal.
    + by exists [].
Qed.

Lemma rstrip_prefix (s : str) : ∃ post : str, s = rstrip s ++ post.
Proof.
  unfold rstrip. destruct (lstrip_suffix (reverse s)) as [pre H].
  exists (reverse pre).
  rewrite <- reverse_app, <- H. by rewrite reverse_involutive.
Qed.

Lemma strip_infix (s : str) : ∃ pre post : str, s = pre ++ strip s ++ post.
Proof.
  unfold strip. destruct (lstrip_suffix s) as [pre H].
  destruct (rstrip_prefix (lstrip s)) as [post H'].
  exists pre, post. by rewrite <- H'.
Qed.

(** A phrase absent from a chunk is absent from the stripped chunk. *)
Lemma contains_strip (sub s : str) :
  contains sub s = false → contains sub (strip s) = false.
Proof.
  intros H. destruct (contains sub (strip s)) eqn:E; [|done].
  destruct (strip_infix s) as (pre & post & Hs).
  rewrite Hs in H. by rewrite (contains_app _ _ _ _ E) in H.
Qed.

End StrFacts.

(** ** The matcher *)

Module ReFacts.
Import Re.

Lemma match_lit_Some (l s s' : str) :
  match_lit l s = Some s' ↔ s = l ++ s'.
Proof.
  revert s; induction l as [|a l IH]; intros s; simpl.
  - split; congruence.
  - destruct s as [|b s]; [done|].
    case_bool_decide as E.
    + subst. rewrite IH. split; congruence.
    + split; [done | congruence].
Qed.

Lemma match_lit_app (l s : str) : match_lit l (l ++ s) = Some s.
Proof. by apply match_lit_Some. Qed.

(** A match found by [search] is a match at the head of a suffix. *)
Lemma search_from_Some (r : regex) (pos : nat) (s : str) (m : match_obj) :
  search_from r pos s = Some m →
  ∃ pre suf : str, s = pre ++ suf ∧ match_at r (pos + length pre) suf = Some m.
Proof.
  revert pos; induction s as [|c s IH]; intros pos; simpl.
  - destruct (match_at r pos []) eqn:E; [|done].
    intros [= <-]. exists [], []. by rewrite Nat.add_0_r.
  - destruct (match_at r pos (c :: s)) eqn:E.
    + intros [= <-]. exists [], (c :: s). by rewrite Nat.add_0_r.
    + intros (pre & suf & -> & H)%IH. exists (c :: pre), suf.
      split; [done|]. simpl. by rewrite <- Nat.add_succ_comm.
Qed.

(** No match at the head of any suffix: no match. *)
Lemma search_from_None (r : regex) (pos : nat) (s : str) :
  (∀ pre suf, s = pre ++ suf → match_at r (pos + length pre) suf = None) →
  search_from r pos s = None.
Proof.
  intros H. destruct (search_from r pos s) eqn:E; [|done].
  apply search_from_Some in E as (pre & suf & -> & E).
  by rewrite H in E.
Qed.

Section facts.
Context {T : Type}.
Implicit Types (k : cont (T:=T)) (K : str → option T).

Lemma match_star_shorter p s K t :
  match_star p s K = Some t → ∃ s', K s' = Some t ∧ length s' ≤ length s.
Proof.
  induction s as [|c s IH]; simpl; [by exists []|].
  destruct (p c); [|by exists (c :: s)].
  destruct (match_star p s K) eqn:E.
  - intros [= ->]. destruct (IH eq_refl) as (s' & ? & ?).
    exists s'. split; [done|simpl; lia].
  - by exists (c :: s).
Qed.

Lemma match_lazy_shorter p s K t :
  match_lazy p s K = Some t → ∃ s', K s' = Some t ∧ length s' ≤ length s.
Proof.
  induction s as [|c s IH]; simpl.
  - destruct (K []) eqn:E; [|done]. intros [= ->]. by exists [].
  - destruct (K (c :: s)) eqn:E.
    + intros [= ->]. by exists (c :: s).
    + destruct (p c); [|done]. intros (s' & ? & ?)%IH.
      exists s'. split; [done|simpl; lia].
Qed.

(** A match takes at least [min_len r] characters. *)
Lemma match_re_min_len r s gs k t :
  match_re r s gs k = Some t →
  ∃ s' gs', k s' gs' = Some t ∧ min_len r + length s' ≤ length s.
Proof.
  revert s gs k. induction r as [l|p|p|p|p|r IH|r IH|r1 IH1 r2 IH2];
    intros s gs k; simpl.
  - destruct (match_lit l s) as [s'|] eqn:E; [|done].
    apply match_lit_Some in E as ->. intros H. exists s', gs.
    split; [done|]. by rewrite length_app.
  - destruct s as [|c s]; [done|]. destruct (p c); [|done].
    intros H. exists s, gs. split; [done|simpl; lia].
  - intros (s' & ? & ?)%match_star_shorter. by exists s', gs.
  - destruct s as [|c s]; [done|]. destruct (p c); [|done].
    intros (s' & ? & ?)%match_star_shorter. exists s', gs.
    split; [done|simpl; lia].
  - intros (s' & ? & ?)%match_lazy_shorter. by exists s', gs.
  - destruct (match_re r s gs k) eqn:E.
    + intros [= ->]. apply IH in E as (s' & gs' & ? & ?).
      exists s', gs'. split; [done|lia].
    + intros H. by exists s, gs.
  - intros (s' & gs' & ? & ?)%IH. by eexists s', _.
  - intros (s1 & gs1 & H & ?)%IH1. apply IH2 in H as (s2 & gs2 & ? & ?).
    exists s2, gs2. split; [done|lia].
Qed.

Lemma match_re_too_short r s gs k :
  length s < min_len r → match_re r s gs k = None.
Proof.
  intros Hlen. destruct (match_re r s gs k) eqn:E; [|done].
  apply match_re_min_len in E as (? & ? & ? & ?). lia.
Qed.

(** A simple pattern matches in one way only. *)
Lemma match_re_simple r s gs k :
  simple r = true →
  match_re r s gs k
  = match consume r s with Some s' => k s' gs | None => None end.
Proof.
  revert s gs k. induction r as [l|p| | | | | |r1 IH1 r2 IH2];
    intros s gs k; simpl; try done.
  - intros _. destruct s as [|c s]; [done|]. by destruct (p c).
  - intros [H1 H2]%andb_true_iff. rewrite IH1 by done.
    destruct (consume r1 s); [|done]. by apply IH2.
Qed.

Lemma consume_app r s s' t :
  simple r = true → consume r s = Some s' → consume r (s ++ t) = Some (s' ++ t).
Proof.
  revert s s'. induction r as [l|p| | | | | |r1 IH1 r2 IH2];
    intros s s'; simpl; try done.
  - intros _ ->%match_lit_Some. rewrite <- (assoc_L (++)). apply match_lit_app.
  - intros _. destruct s as [|c s]; [done|]. simpl.
    destruct (p c); [|done]. by intros [= ->].
  - intros [H1 H2]%andb_true_iff.
    destruct (consume r1 s) as [s1|] eqn:E; [|done].
    rewrite (IH1 _ _ H1 E). by apply IH2.
Qed.

(** A greedy repetition that cannot succeed further on stops here. *)
Lemma match_star_stop p s K :
  (∀ s', length s' < length s → K s' = None) → match_star p s K = K s.
Proof.
  induction s as [|c s IH]; simpl; [done|]. intros HK.
  destruct (p c); [|done]. rewrite IH.
  - rewrite HK; [done|simpl; lia].
  - intros s' Hs'. apply HK. simpl. lia.
Qed.

(** A greedy repetition runs on while it can succeed later. *)
Lemma match_star_go p d s K t :
  forallb p d = true → match_star p s K = Some t →
  match_star p (d ++ s) K = Some t.
Proof.
  induction d as [|c d IH]; simpl; [done|].
  intros [-> Hd]%andb_true_iff Hs. by rewrite IH.
Qed.
End facts.

Lemma fullmatch_consume r s :
  simple r = true → fullmatch r s = true → consume r s = Some [].
Proof.
  intros Hr. unfold fullmatch. rewrite match_re_simple by done.
  destruct (consume r s) as [[|??]|]; done.
Qed.

Lemma consume_length r s s' :
  simple r = true → consume r s = Some s' → length s = min_len r + length s'.
Proof.
  revert s s'. induction r as [l|p| | | | | |r1 IH1 r2 IH2];
    intros s s'; simpl; try done.
  - intros _ ->%match_lit_Some. by rewrite length_app.
  - intros _. destruct s as [|c s]; [done|]. destruct (p c); [|done].
    by intros [= ->].
  - intros [H1 H2]%andb_true_iff.
    destruct (consume r1 s) as [s1|] eqn:E; [|done].
    intros H. rewrite (IH1 _ _ H1 E), (IH2 _ _ H2 H). lia.
Qed.

Lemma match_lit_refl (l : str) : match_lit l l = Some [].
Proof. by apply match_lit_Some; rewrite app_nil_r. Qed.

Lemma search_from_head r pos s m :
  match_at r pos s = Some m → search_from r pos s = Some m.
Proof. intros H. destruct s; simpl; by rewrite H. Qed.

Lemma match_star_inv {T} p s (K : str → option T) t :
  match_star p s K = Some t →
  ∃ d rest, s = d ++ rest ∧ forallb p d = true ∧ K rest = Some t.
Proof.
  induction s as [|c s IH]; simpl.
  - intros H. by exists [], [].
  - destruct (p c) eqn:Hc; [|intros H; by exists [], (c :: s)].
    destruct (match_star p s K) eqn:E.
    + intros [= ->]. destruct (IH eq_refl) as (d & rest & -> & Hd & HK).
      exists (c :: d), rest. simpl. by rewrite Hc, Hd.
    + intros H. by exists [], (c :: s).
Qed.

Lemma consume_split r s s' :
  simple r = true → consume r s = Some s' →
  ∃ a, s = a ++ s' ∧ consume r a = Some [].
Proof.
  revert s s'. induction r as [l|p| | | | | |r1 IH1 r2 IH2];
    intros s s'; simpl; try done.
  - intros _ ->%match_lit_Some. exists l. split; [done|apply match_lit_refl].
  - intros _. destruct s as [|c s]; [done|]. destruct (p c) eqn:Hc; [|done].
    intros [= ->]. exists [c]. simpl. by rewrite Hc.
  - intros [H1 H2]%andb_true_iff.
    destruct (consume r1 s) as [s1|] eqn:E; [|done]. intros E2.
    destruct (IH1 _ _ H1 E) as (a1 & -> & Ha1).
    destruct (IH2 _ _ H2 E2) as (a2 & -> & Ha2).
    exists (a1 ++ a2). split; [by rewrite (assoc_L (++))|].
    by rewrite (consume_app _ _ _ a2 H1 Ha1).
Qed.

Lemma consume_fullmatch r s :
  simple r = true → consume r s = Some [] → fullmatch r s = true.
Proof.
  intros Hr H. unfold fullmatch. by rewrite match_re_simple, H.
Qed.

End ReFacts.

(** ** [VAAParser] *)

Module VAAFacts.
Import Re ReFacts Str StrFacts VAAParser.

(** A pattern [a(b)?c] matches at the head of texts that begin with
    [abc] or with [ac] only. *)
Lemma match_opt_lit {T} (a b c s : str) (gs : list str) (k : cont (T:=T)) :
  is_Some (match_re (seq [Lit a; Opt (Group (Lit b)); Lit c]) s gs k) →
  startswith s (a ++ c) = true ∨ startswith s (a ++ b ++ c) = true.
Proof.
  simpl. intros [t H].
  destruct (match_lit a s) as [s1|] eqn:Ea; [|done].
  apply match_lit_Some in Ea as ->.
  destruct (match_lit b s1) as [s2|] eqn:Eb.
  - apply match_lit_Some in Eb as ->.
    destruct (match_lit c s2) as [s3|] eqn:Ec.
    + apply match_lit_Some in Ec as ->. right.
      rewrite !(assoc_L (++)). apply startswith_app.
    + destruct (match_lit c (b ++ s2)) as [s3|] eqn:Ec'; [|done].
      apply match_lit_Some in Ec' as ->. left.
      rewrite (assoc_L (++)). apply startswith_app.
  - destruct (match_lit c s1) as [s3|] eqn:Ec; [|done].
    apply match_lit_Some in Ec as ->. left.
    rewrite (assoc_L (++)). apply startswith_app.
Qed.

Lemma contains_suffix (sub pre s : str) :
  startswith s sub = true → contains sub (pre ++ s) = true.
Proof.
  intros H. induction pre as [|c pre IH]; simpl.
  - destruct s; simpl in *; by rewrite H.
  - by rewrite IH, orb_true_r.
Qed.

(** The header pattern is found only in a text that contains one of the
    two phrases. *)
Lemma header_search_contains (s : str) :
  is_Some (search header_re s) →
  contains "VA ADVISORY" s || contains "VA EXTENDED ADVISORY" s = true.
Proof.
  intros [m H]. apply search_from_Some in H as (pre & suf & -> & H).
  destruct (match_opt_lit "VA " "EXTENDED " "ADVISORY" suf [] _ (mk_is_Some _ _ H))
    as [E|E]; apply (contains_suffix _ pre) in E.
  - change ("VA " ++ "ADVISORY") with (list_ascii_of_string "VA ADVISORY") in E.
    by rewrite E.
  - change ("VA " ++ "EXTENDED " ++ "ADVISORY")
      with (list_ascii_of_string "VA EXTENDED ADVISORY") in E.
    by rewrite E, orb_true_r.
Qed.

Lemma step_inactive (self : state) (ev : event) :
  active self = false → no_header ev = true → step self ev = self.
Proof.
  intros Ha Hev. destruct ev as [tag attrs|data|tag]; simpl.
  - done.
  - unfold handle_data. rewrite Ha.
    destruct (0 <? length (strip data)); [|done].
    destruct (search header_re (strip data)) as [m|] eqn:E; [|done].
    apply mk_is_Some, header_search_contains in E.
    unfold no_header in Hev. apply andb_true_iff in Hev as [H1 H2].
    apply negb_true_iff, contains_strip in H1.
    apply negb_true_iff, contains_strip in H2.
    by rewrite H1, H2 in E.
  - unfold handle_endtag. by rewrite Ha.
Qed.

Lemma run_inactive (self : state) (page : list event) :
  active self = false → forallb no_header page = true → run self page = self.
Proof.
  intros Ha. induction page as [|ev page IH]; simpl; [done|].
  intros [Hev Hp]%andb_true_iff. unfold run in *. simpl.
  rewrite step_inactive by done. by apply IH.
Qed.

Lemma run_app (self : state) (p1 p2 : list event) :
  run self (p1 ++ p2) = run (run self p1) p2.
Proof. apply foldl_app. Qed.

Lemma step_quiet_inactive (self : state) (ev : event) :
  active self = false → quiet ev = true → step self ev = self.
Proof.
  intros Ha Hq. destruct ev as [tag attrs|data|tag]; simpl.
  - done.
  - unfold handle_data. simpl in Hq. apply Nat.eqb_eq in Hq. by rewrite Hq.
  - unfold handle_endtag. by rewrite Ha.
Qed.

Lemma run_quiet_inactive (self : state) (page : list event) :
  active self = false → forallb quiet page = true → run self page = self.
Proof.
  intros Ha. induction page as [|ev page IH]; [done|].
  intros [Hev Hp]%andb_true_iff. unfold run in *. simpl.
  rewrite step_quiet_inactive by done. by apply IH.
Qed.

(** One quiet call on an active parser: nothing changes, or the final
    statement is found and the parser becomes inactive. *)
Lemma step_quiet_active (self : state) (ev : event) :
  active self = true → quiet ev = true →
  step self ev = self ∨ active (step self ev) = false.
Proof.
  intros Ha Hq. destruct ev as [tag attrs|data|tag]; simpl.
  - by left.
  - left. unfold handle_data. simpl in Hq. apply Nat.eqb_eq in Hq. by rewrite Hq.
  - unfold handle_endtag. rewrite Ha. simpl in Hq.
    apply negb_true_iff in Hq. rewrite Hq.
    destruct (search final_re (text self)); [by right|left].
    destruct self; simpl in *; by subst.
Qed.

Lemma run_quiet_active (self : state) (page : list event) :
  active self = true → forallb quiet page = true →
  active (run self page) = true → run self page = self.
Proof.
  revert self. induction page as [|ev page IH]; intros self Ha; [done|].
  intros [Hev Hp]%andb_true_iff. unfold run in *. simpl.
  destruct (step_quiet_active self ev Ha Hev) as [->|Hoff].
  - by apply IH.
  - intros H. fold (run (step self ev) page) in H.
    rewrite (run_quiet_inactive _ _ Hoff Hp) in H. congruence.
Qed.

Lemma handle_data_active (self : state) (data : str) :
  active self = true → 0 < length (strip data) →
  handle_data self data = State true (text self ++ strip data ++ " ").
Proof.
  intros Ha Hd. unfold handle_data. rewrite Ha.
  destruct (strip data); simpl in *; [lia|done].
Qed.

Lemma handle_data_header (self : state) (data : str) (m : match_obj) :
  active self = false → search header_re (strip data) = Some m →
  handle_data self data = State true (drop (m_start m) (strip data)).
Proof.
  intros Ha Hm. unfold handle_data. rewrite Ha, Hm.
  destruct (strip data); [by vm_compute in Hm|done].
Qed.
End VAAFacts.

Section C1.
Import VAAParser.

(** C1 as the claim states it fails: after the final statement has
    closed the message, a later chunk with a header phrase in it is
    captured and replaces the buffer. *)
Lemma C1_counterexample :
  ¬ (∀ (pre rest : list event) (tag : string),
       active (run init pre) = true →
       active (run init (pre ++ [EndTag tag])) = false →
       text (run init (pre ++ EndTag tag :: rest))
       = text (run init (pre ++ [EndTag tag]))).
Proof.
  intros H.
  specialize (H [Data "VA ADVISORY NXT ADVISORY: NONE"]
                [Data "VA ADVISORY second"] "p"%string eq_refl eq_refl).
  vm_compute in H. discriminate H.
Qed.

(** C1 (amended): once the final statement [NXT ADVISORY: ...] has
    matched at an end tag and the parser is inactive again, the handler
    calls of the rest of the page leave the parser as it is, provided no
    later text chunk contains [VA ADVISORY] or [VA EXTENDED ADVISORY]; a
    later chunk in which the header pattern is found makes the parser
    active again and replaces the buffer by that chunk from the match
    on. *)
Theorem C1_inactive_after_final
    (pre rest : list event) (tag : string) :
  active (run init pre) = true →
  active (run init (pre ++ [EndTag tag])) = false →
  (forallb no_header rest = true →
   run init (pre ++ EndTag tag :: rest) = run init (pre ++ [EndTag tag]))
  ∧ (∀ (data : str) (m : Re.match_obj),
       Re.search header_re (Str.strip data) = Some m →
       run init (pre ++ [EndTag tag; Data data])
       = State true (drop (Re.m_start m) (Str.strip data))).
Proof.
  intros _ Hoff. split.
  - intros Hrest.
    change (EndTag tag :: rest) with ([EndTag tag] ++ rest).
    rewrite (assoc_L (++)). unfold run at 1. rewrite foldl_app.
    by apply VAAFacts.run_inactive.
  - intros data m Hm.
    change [EndTag tag; Data data] with ([EndTag tag] ++ [Data data]).
    rewrite (assoc_L (++)). unfold run at 1. rewrite foldl_app. simpl.
    fold (run init (pre ++ [EndTag tag])).
    unfold handle_data. rewrite Hoff, Hm.
    destruct (Str.strip data); [by vm_compute in Hm|done].
Qed.

Lemma C1_inactive_after_final_witness :
  let pre := [Data "VA ADVISORY NXT ADVISORY: NONE"] in
  let rest := [Data "more text after"; EndTag "p"; Data "VA"] in
  run init (pre ++ EndTag "p" :: rest) = run init (pre ++ [EndTag "p"]).
Proof.
  intros pre rest.
  apply (C1_inactive_after_final pre rest "p"); reflexivity.
Defined.

End C1.

Section VAAParser_claims.
Import Re Str VAAParser VAAFacts.

(** C6 as the claim states it fails on the page of the example given as
    one text chunk with no tag after it: the final statement is looked
    for at end tags only, so the text after it stays in the buffer. *)
Lemma C6_counterexample :
  parse [Data example_text]
  = "VA ADVISORY Ash cloud observed at FL350. NXT ADVISORY: NO FURTHER ADVISORIES"
    ++ [Str.newline] ++ "more text after"
  ∧ parse [Data example_text] ≠ example_message.
Proof. split; [by vm_compute|]. vm_compute. discriminate. Qed.

(** C6 (amended): when the text of the example is followed by an end
    tag (of any element), the extracted text starts at [VA ADVISORY] and
    ends right after the newline that ends
    [NXT ADVISORY: NO FURTHER ADVISORIES], whatever follows that has no
    header phrase in it; and a page none of whose text chunks contains
    [VA ADVISORY] or [VA EXTENDED ADVISORY] gives the empty string. *)
Theorem C6_body_extraction (tag : string) (rest page : list event) :
  (forallb no_header rest = true →
   parse (Data example_text :: EndTag tag :: rest) = example_message)
  ∧ (forallb no_header page = true → parse page = []).
Proof.
  split.
  - intros Hrest. unfold parse, feed.
    change (Data example_text :: EndTag tag :: rest)
      with ([Data example_text; EndTag tag] ++ rest).
    rewrite run_app.
    assert (run init [Data example_text; EndTag tag]
            = State false example_message) as ->.
    { unfold run. simpl. unfold handle_endtag.
      replace (handle_data init example_text)
        with (State true (example_message ++ "more text after"))
        by (by vm_compute).
      simpl. destruct (bool_decide (tag ∈ structural)); by vm_compute. }
    by rewrite run_inactive.
  - intros Hpage. unfold parse, feed. by rewrite run_inactive.
Qed.

Lemma C6_body_extraction_witness :
  parse (Data example_text :: EndTag "p" :: [StartTag "p" []; Data "more"; EndTag "p"])
  = example_message
  ∧ parse [StartTag "p" []; Data "VAA ADVISOR"; EndTag "p"] = [].
Proof.
  split.
  - apply (C6_body_extraction "p" [StartTag "p" []; Data "more"; EndTag "p"] []).
    reflexivity.
  - apply (C6_body_extraction "p" [] [StartTag "p" []; Data "VAA ADVISOR"; EndTag "p"]).
    reflexivity.
Defined.

(** C10 as the claim states it fails.  The chunk after the activating
    one comes before any structural end tag and is dropped all the same
    when an end tag between the two finds the final statement in the
    activating chunk; and two later chunks with a structural end tag
    between them are separated by a newline, not by a space. *)
Lemma C10_counterexample :
  text (run init [Data ("VA ADVISORY NXT ADVISORY: X" ++ [newline] ++ "foo");
                  EndTag "b"; Data "bar"])
  = "VA ADVISORY NXT ADVISORY: X" ++ [newline]
  ∧ text (run init [Data "VA ADVISORY"; Data "a"; EndTag "p"; Data "b"])
    = "VA ADVISORY" ++ "a" ++ [newline] ++ "b" ++ " ".
Proof. split; by vm_compute. Qed.

(** C10 (amended): the chunk in which the header is found is stored
    from the match on with no separator after it, so the next non-empty
    chunk follows it directly when it arrives while the parser is still
    active, with only start tags, blank chunks and end tags of elements
    that are not structural in between; a later non-empty chunk that
    arrives in the same way is separated from the one before it by the
    one space that follows every chunk appended while active. *)
Theorem C10_no_separator_after_header
    (self : state) (a b c : str) (m : match_obj) (mid mid' : list event) :
  active self = false →
  search header_re (strip a) = Some m →
  forallb quiet mid = true →
  active (run self (Data a :: mid)) = true →
  0 < length (strip b) →
  forallb quiet mid' = true →
  active (run self (Data a :: mid ++ Data b :: mid')) = true →
  0 < length (strip c) →
  run self (Data a :: mid) = State true (drop (m_start m) (strip a))
  ∧ text (run self (Data a :: mid ++ [Data b]))
    = drop (m_start m) (strip a) ++ strip b ++ " "
  ∧ text (run self (Data a :: mid ++ Data b :: mid' ++ [Data c]))
    = drop (m_start m) (strip a) ++ strip b ++ " " ++ strip c ++ " ".
Proof.
  intros Hoff Hm Hmid Hact Hb Hmid' Hact' Hc.
  assert (run self (Data a :: mid) = State true (drop (m_start m) (strip a)))
    as Ha.
  { change (Data a :: mid) with ([Data a] ++ mid) in *.
    rewrite run_app in *. unfold run at 2 in Hact. unfold run at 2. simpl in *.
    rewrite (handle_data_header _ _ _ Hoff Hm) in *.
    by apply run_quiet_active. }
  assert (run self (Data a :: mid ++ [Data b])
          = State true (drop (m_start m) (strip a) ++ strip b ++ " ")) as Hb'.
  { rewrite app_comm_cons, run_app, Ha. unfold run. simpl.
    by rewrite handle_data_active. }
  split; [done|]. split; [by rewrite Hb'|].
  change (Data a :: mid ++ Data b :: mid' ++ [Data c])
    with ((Data a :: mid ++ Data b :: mid' ++ [Data c])).
  replace (Data a :: mid ++ Data b :: mid' ++ [Data c])
    with ((Data a :: mid ++ [Data b]) ++ mid' ++ [Data c])
    by (simpl; by rewrite <- (assoc_L (++))).
  replace (Data a :: mid ++ Data b :: mid')
    with ((Data a :: mid ++ [Data b]) ++ mid') in Hact'
    by (simpl; by rewrite <- (assoc_L (++))).
  rewrite run_app in Hact'. rewrite !run_app. rewrite Hb' in *.
  rewrite (run_quiet_active (State true _) _ eq_refl Hmid' Hact').
  unfold run. simpl. rewrite handle_data_active by done. simpl.
  by rewrite <- !(assoc_L (++)).
Qed.

Lemma C10_no_separator_after_header_witness :
  text (run init (Data "see VA ADVISORY" :: [EndTag "b"] ++ [Data " DTG: "]))
  = "VA ADVISORY" ++ "DTG:" ++ " ".
Proof.
  refine (proj1 (proj2 (C10_no_separator_after_header init "see VA ADVISORY" " DTG: " "20200101"
           (Match 4 15 []) [EndTag "b"] [StartTag "i" []] _ _ _ _ _ _ _ _)));
    vm_compute; (reflexivity || lia).
Defined.

End VAAParser_claims.

(** ** [ToulouseFetcher.ListParser] *)

Module ListFacts.
Import Re ReFacts Str StrFacts ListParser.

(** A pattern made of a greedy group of [.], [sep], a group [dre] and
    [suf], on a text [desc sep date suf]: the greedy group takes [desc], because what follows has the one length
    the rest of the pattern can match. *)
Lemma match_at_item (sep suf : str) (dre : regex) (desc date : str) pos :
  simple dre = true →
  forallb is_dot desc = true →
  consume dre date = Some [] →
  match_at (seq [Group (Star is_dot); Lit sep; Group dre; Lit suf]) pos
    (desc ++ sep ++ date ++ suf)
  = Some (Match pos (pos + length (desc ++ sep ++ date ++ suf)) [desc; date]).
Proof.
  intros Hdre Hdesc Hdate. unfold match_at. simpl.
  set (s := desc ++ sep ++ date ++ suf).
  set (K := λ s' : str, match match_lit sep s' with Some _ => _ | None => _ end).
  apply match_star_go; [done|].
  assert (length date = min_len dre) as Hlen.
  { rewrite (consume_length _ _ _ Hdre Hdate). simpl. lia. }
  rewrite match_star_stop.
  - unfold K. cbv beta. rewrite match_lit_app, match_re_simple by done.
    rewrite (consume_app _ _ _ suf Hdre Hdate). simpl.
    rewrite match_lit_refl. simpl.
    f_equal. f_equal.
    + lia.
    + f_equal.
      * unfold s. rewrite !length_app.
        replace (_ - _) with (length desc) by lia. by rewrite take_app_length.
      * f_equal. rewrite length_app.
        replace (_ - _) with (length date) by lia. by rewrite take_app_length.
  - intros s' Hs'. unfold K. cbv beta.
    destruct (match_lit sep s') as [s1|] eqn:E1; [|done].
    apply match_lit_Some in E1 as ->.
    match goal with |- ?x = None => destruct x eqn:E end; [|done].
    apply match_re_min_len in E as (s2 & gs2 & E & Hs2).
    destruct (match_lit suf s2) as [s3|] eqn:E3; [|done].
    apply match_lit_Some in E3 as ->.
    rewrite !length_app in Hs'. rewrite !length_app in Hs2. exfalso. lia.
Qed.

(** The text of a list item of the expected form is matched as a whole:
    group 1 is the description and group 2 the date. *)
Lemma search_item (desc date : str) :
  forallb is_dot desc = true →
  fullmatch date_re date = true →
  search item_re (desc ++ " - " ++ date ++ " utc")
  = Some (Match 0 (length (desc ++ " - " ++ date ++ " utc")) [desc; date]).
Proof.
  intros Hdesc Hdate. apply search_from_head.
  apply (match_at_item " - " " utc" date_re desc date 0); [done|done|].
  by apply fullmatch_consume.
Qed.

Lemma handle_endtag_li (self : state) :
  active self = true →
  handle_endtag self "li"
  = State true (Some []) []
      match search item_re (text self) with
      | Some m => anchors self ++ [(href self, group m 1, group m 2)]
      | None => anchors self
      end.
Proof. intros Ha. unfold handle_endtag. simpl. by rewrite Ha. Qed.

(** Conversely, where the pattern matches, the text has that form from
    the start of the match on, and the groups are its two parts. *)
Lemma match_at_item_inv (sep suf : str) (dre : regex) (s : str) pos m :
  simple dre = true →
  match_at (seq [Group (Star is_dot); Lit sep; Group dre; Lit suf]) pos s
  = Some m →
  ∃ desc date post,
    s = desc ++ sep ++ date ++ suf ++ post
    ∧ forallb is_dot desc = true
    ∧ consume dre date = Some []
    ∧ m_groups m = [desc; date].
Proof.
  intros Hdre. unfold match_at. simpl.
  intros (desc & rest & -> & Hdesc & H)%match_star_inv.
  destruct (match_lit sep rest) as [s1|] eqn:E1; [|done].
  apply match_lit_Some in E1 as ->.
  rewrite match_re_simple in H by done.
  destruct (consume dre s1) as [s2|] eqn:E2; [|done].
  destruct (consume_split _ _ _ Hdre E2) as (date & -> & Hdate).
  destruct (match_lit suf s2) as [post|] eqn:E3; [|done].
  apply match_lit_Some in E3 as ->. injection H as <-.
  exists desc, date, post. repeat split; try done. simpl.
  f_equal.
  - rewrite length_app. replace (_ - _) with (length desc) by lia.
    by rewrite take_app_length.
  - f_equal. rewrite length_app.
    replace (_ - _) with (length date) by lia. by rewrite take_app_length.
Qed.

Lemma search_item_inv (s : str) (m : match_obj) :
  search item_re s = Some m →
  ∃ pre desc date post,
    s = pre ++ desc ++ " - " ++ date ++ " utc" ++ post
    ∧ forallb is_dot desc = true
    ∧ fullmatch date_re date = true
    ∧ group m 1 = desc ∧ group m 2 = date.
Proof.
  intros (pre & suf & -> & H)%search_from_Some.
  apply (match_at_item_inv " - " " utc" date_re) in H
    as (desc & date & post & -> & Hdesc & Hdate & Hm); [|done].
  exists pre, desc, date, post. repeat split; try done.
  - by apply consume_fullmatch.
  - unfold group. by rewrite Hm.
  - unfold group. by rewrite Hm.
Qed.

End ListFacts.

Section ListParser_claims.
Import Re ReFacts Str ListParser ListFacts.

(** C7: at the end of a list item inside a list, no entry is added when
    the pattern is not found in the text of the item; when it is found,
    exactly one entry [(href, volcano, date)] is added, where the text
    reads [... volcano - date utc ...] with [date] of the form
    [YYYY-MM-DD HH:MM] and [volcano] free of newlines; a text that is
    [desc - date utc] as a whole gives [(href, desc, date)]; and the
    item of the example gives the entry of the example. *)
Theorem C7_list_item (self : state) :
  active self = true →
  (search item_re (text self) = None →
   anchors (handle_endtag self "li") = anchors self)
  ∧ (∀ m, search item_re (text self) = Some m →
       ∃ pre desc date post,
         text self = pre ++ desc ++ " - " ++ date ++ " utc" ++ post
         ∧ forallb is_dot desc = true
         ∧ fullmatch date_re date = true
         ∧ anchors (handle_endtag self "li")
           = anchors self ++ [(href self, desc, date)])
  ∧ (∀ desc date,
       forallb is_dot desc = true →
       fullmatch date_re date = true →
       text self = desc ++ " - " ++ date ++ " utc" →
       anchors (handle_endtag self "li")
       = anchors self ++ [(href self, desc, date)])
  ∧ anchors (run init example_item)
    = [(Some ("/adv/123.html" : str), "Volcano X" : str,
        "2020-05-01 12:00" : str)].
Proof.
  intros Ha. rewrite (handle_endtag_li _ Ha). cbn [anchors].
  split; [|split; [|split]].
  - by intros ->.
  - intros m Hm. rewrite Hm.
    destruct (search_item_inv _ _ Hm)
      as (pre & desc & date & post & Ht & Hdesc & Hdate & <- & <-).
    by exists pre, (group m 1), (group m 2), post.
  - intros desc date Hdesc Hdate ->. by rewrite (search_item _ _ Hdesc Hdate).
  - by vm_compute.
Qed.

Lemma C7_list_item_witness :
  let self :=
    run init [StartTag "ul" []; StartTag "li" [];
              StartTag "a" [("href"%string, Some ("/adv/123.html" : str))];
              Data " Volcano X - 2020-05-01 12:00 utc "; EndTag "a"] in
  anchors (handle_endtag self "li")
  = [(Some ("/adv/123.html" : str), "Volcano X" : str, "2020-05-01 12:00" : str)].
Proof.
  intros self.
  refine (proj1 (proj2 (proj2 (C7_list_item self _))) "Volcano X" "2020-05-01 12:00" _ _ _);
    reflexivity.
Defined.
End ListParser_claims.

(** ** [LondonFetcher.TableParser] *)

Module TableFacts.
Import Str TableParser TableDefs.

Lemma table_run_cons (self : state) (ev : event) (page : list event) :
  run self (ev :: page) = run (step self ev) page.
Proof. done. Qed.

Lemma table_run_snoc (self : state) (page : list event) (ev : event) :
  run self (page ++ [ev]) = step (run self page) ev.
Proof. unfold run. by rewrite foldl_app. Qed.

Lemma step_rows_nonempty (self : state) (ev : event) :
  forallb (λ r, 0 <? length r) (rows self) = true →
  forallb (λ r, 0 <? length r) (rows (step self ev)) = true.
Proof.
  intros I. destruct ev as [tag attrs|data|tag]; simpl.
  - unfold handle_starttag.
    repeat (case_bool_decide || case_match); simpl; done.
  - done.
  - unfold handle_endtag.
    repeat (case_bool_decide || case_match); simpl in *; try done;
      rewrite forallb_app, I; simpl; by rewrite andb_true_r.
Qed.

Lemma run_rows_nonempty (self : state) (page : list event) :
  forallb (λ r, 0 <? length r) (rows self) = true →
  forallb (λ r, 0 <? length r) (rows (run self page)) = true.
Proof.
  revert self. induction page as [|ev page IH]; intros self I; [done|].
  rewrite table_run_cons. by apply IH, step_rows_nonempty.
Qed.

Lemma table_run_chunks (self : state) (chunks : list str) :
  run self (Data <$> chunks)
  = State (href self) (text self ++ concat (strip <$> chunks)) (row self)
      (rows self).
Proof.
  revert self. induction chunks as [|data chunks IH]; intros self.
  - simpl. rewrite app_nil_r. by destruct self.
  - rewrite fmap_cons, table_run_cons, IH. simpl.
    by rewrite <- (assoc_L (++)).
Qed.

Lemma count_td_cons (ev : event) (page : list event) :
  count_td (ev :: page)
  = (if is_td_end ev then 1 else 0) + count_td page.
Proof. unfold count_td. simpl. by destruct (is_td_end ev). Qed.

Lemma step_cells (self : state) (ev : event) :
  no_tbody ev = true →
  length (concat (rows (step self ev))) + length (row (step self ev))
  = length (concat (rows self)) + length (row self)
    + (if is_td_end ev then 1 else 0).
Proof.
  intros Hev. destruct ev as [tag attrs|data|tag]; simpl.
  - unfold handle_starttag. simpl in Hev. apply negb_true_iff in Hev.
    rewrite Hev.
    repeat (case_bool_decide || case_match); simpl; lia.
  - lia.
  - unfold handle_endtag.
    destruct (decide (tag = "td"%string)) as [->|Htd].
    + simpl. rewrite length_app. simpl. lia.
    + rewrite (bool_decide_eq_false_2 (tag = "td"%string)) by done.
      case_bool_decide; simpl; [|lia].
      destruct (row self) eqn:E; simpl; [lia|].
      rewrite concat_app, length_app. simpl. rewrite app_nil_r. simpl. lia.
Qed.
End TableFacts.

Module TableFacts1.
Import Str TableParser TableSpec TableFacts.

Lemma table_run_app (self : state) (p1 p2 : list event) :
  run self (p1 ++ p2) = run (run self p1) p2.
Proof. unfold run. by rewrite foldl_app. Qed.

Lemma run_cell_events (self : state) (c : option str * list str) :
  href self = Some [] → text self = [] →
  run self (cell_events c)
  = State (Some []) [] (row self ++ [cell_of c]) (rows self).
Proof.
  intros Hh Ht. destruct c as [[h|] chunks]; unfold cell_events, cell_of;
    cbn [fst snd default].
  - rewrite !table_run_cons.
    change (step (step self (StartTag "td" []))
              (StartTag "a" [("href"%string, Some h)]))
      with (State (Some h) (text self) (row self) (rows self)).
    rewrite table_run_app, table_run_chunks. cbn [href text row rows].
    rewrite Ht. reflexivity.
  - rewrite table_run_cons.
    change (step self (StartTag "td" [])) with self.
    rewrite table_run_snoc, table_run_chunks. rewrite Ht, Hh. reflexivity.
Qed.

Lemma run_cells_events (self : state) (cells : list (option str * list str)) :
  href self = Some [] → text self = [] →
  run self (concat (cell_events <$> cells))
  = State (Some []) [] (row self ++ (cell_of <$> cells)) (rows self).
Proof.
  revert self. induction cells as [|c cells IH]; intros self Hh Ht.
  - simpl. rewrite app_nil_r. destruct self; simpl in *; by subst.
  - change (concat (cell_events <$> c :: cells))
      with (cell_events c ++ concat (cell_events <$> cells)).
    rewrite table_run_app, run_cell_events by done.
    rewrite IH by done. simpl. by rewrite <- (assoc_L (++)).
Qed.

Lemma run_row_events (self : state) (cells : list (option str * list str)) :
  href self = Some [] → text self = [] → row self = [] →
  run self (row_events cells)
  = State (Some []) [] []
      (if 0 <? length cells then rows self ++ [cell_of <$> cells]
       else rows self).
Proof.
  intros Hh Ht Hr. unfold row_events.
  rewrite table_run_cons. change (step self (StartTag "tr" [])) with self.
  rewrite table_run_snoc, run_cells_events by done.
  rewrite Hr. destruct cells as [|c cells]; reflexivity.
Qed.

Lemma run_rows_events (self : state)
    (rws : list (list (option str * list str))) :
  href self = Some [] → text self = [] → row self = [] →
  run self (rows_events rws)
  = State (Some []) [] [] (rows self ++ rows_of rws).
Proof.
  revert self. induction rws as [|cells rws IH]; intros self Hh Ht Hr.
  - unfold rows_events, rows_of. simpl. rewrite app_nil_r.
    destruct self; simpl in *; by subst.
  - change (rows_events (cells :: rws))
      with (row_events cells ++ rows_events rws).
    rewrite table_run_app, run_row_events by done. rewrite IH by done.
    unfold rows_of. simpl. destruct (0 <? length cells); [|done].
    simpl. by rewrite <- (assoc_L (++)).
Qed.
End TableFacts1.


Section TableParser_claims.
Import Str TableParser TableSpec TableFacts TableFacts1.

(** C8 as the claim states it fails: a row that comes after the end of
    the last [tbody], in a later table without one, is in the result
    beside the row of the last [tbody]. *)
Lemma C8_counterexample :
  let second :=
    [StartTag "tbody" []; StartTag "tr" []; Data "two"; EndTag "td";
     EndTag "tr"; EndTag "tbody"] in
  let page :=
    [StartTag "table" []; StartTag "tbody" []; StartTag "tr" [];
     Data "one"; EndTag "td"; EndTag "tr"; EndTag "tbody"]
    ++ second
    ++ [EndTag "table"; StartTag "table" []; StartTag "tr" [];
        Data "three"; EndTag "td"; EndTag "tr"; EndTag "table"] in
  rows (feed init second) = [[Cell "two" (Some [])]]
  ∧ rows (feed init page)
    = [[Cell "two" (Some [])]; [Cell "three" (Some [])]].
Proof. split; reflexivity. Qed.

(** C8 (amended): a [tbody] start tag resets the whole accumulation,
    so the result of a page is the result of what follows its last
    [tbody] start tag, whatever came before and whatever state the
    parser was in.  The end tag of a [tbody] is not looked at: the rows
    written after the last [tbody] start tag are all in the result, in
    their order, each with the text and the link of its cells, those
    after the end of that [tbody] as well as those before it.  At the
    end of a row, the row is appended exactly when it has at least one
    completed cell. *)
Theorem C8_last_tbody
    (self : state) (pre post : list event) (attrs : list (string * option str))
    (rws1 rws2 : list (list (option str * list str))) :
  handle_starttag self "tbody" attrs = init
  ∧ rows (feed self (pre ++ StartTag "tbody" attrs :: post))
    = rows (run init post)
  ∧ rows (feed self (pre ++ StartTag "tbody" attrs :: rows_events rws1
                     ++ EndTag "tbody" :: rows_events rws2))
    = rows_of rws1 ++ rows_of rws2
  ∧ handle_endtag self "tr"
    = State (href self) (text self) []
        (match row self with
         | [] => rows self
         | _ :: _ => rows self ++ [row self]
         end).
Proof.
  assert (∀ post, feed self (pre ++ StartTag "tbody" attrs :: post)
                  = run init post) as H.
  { intros post'. unfold feed, run. by rewrite foldl_app. }
  split; [done|]. split; [by rewrite H|]. split.
  - rewrite H, table_run_app, (run_rows_events init) by done.
    rewrite table_run_cons.
    change (step (State (Some []) [] [] (rows init ++ rows_of rws1))
              (EndTag "tbody"))
      with (State (Some []) [] [] (rows init ++ rows_of rws1)).
    by rewrite run_rows_events.
  - unfold handle_endtag. simpl. by destruct (row self).
Qed.

(** Two tables on one page: only the row of the second is in the
    result, and its empty row is not. *)
Example two_tbody :
  rows (feed init
          [StartTag "tbody" []; StartTag "tr" []; Data "one"; EndTag "td";
           EndTag "tr"; EndTag "tbody";
           StartTag "tbody" []; StartTag "tr" []; EndTag "tr";
           StartTag "tr" []; Data "two"; EndTag "td"; EndTag "tr";
           EndTag "tbody"])
  = [[Cell "two" (Some [])]].
Proof. reflexivity. Qed.
End TableParser_claims.

(** ** [Fetcher.hasExistingFile] *)

Module PathFacts.
Import Str StrFacts.

(** No segment of a split contains the separator. *)
Lemma split_no_sep (sep : ascii) (s : str) :
  Forall (λ seg, sep ∉ seg) (split sep s).
Proof.
  induction s as [|c s IH]; simpl.
  - repeat constructor. apply not_elem_of_nil.
  - case_bool_decide as Hc.
    + constructor; [apply not_elem_of_nil|done].
    + destruct (split sep s) as [|seg segs].
      * repeat constructor. by intros ->%list_elem_of_singleton.
      * apply Forall_cons in IH as [Hseg Hsegs].
        constructor; [|done]. rewrite elem_of_cons.
        intros [?|?]; [congruence|done].
Qed.

Lemma last_segment_no_sep (sep : ascii) (s : str) :
  sep ∉ default [] (last (split sep s)).
Proof.
  pose proof (split_no_sep sep s) as H.
  destruct (last (split sep s)) as [seg|] eqn:E; simpl.
  - rewrite Forall_forall in H. apply H. by eapply last_Some_elem_of.
  - apply not_elem_of_nil.
Qed.

(** A suffix without [c] of a text lies within the part after the last
    [c]. *)
Lemma suffix_after_sep (c : ascii) (a b suf : str) :
  c ∉ suf → suf `suffix_of` a ++ c :: b → suf `suffix_of` b.
Proof.
  destruct suf as [|y suf]; [intros; apply suffix_nil|].
  intros Hc. induction a as [|x a IH]; simpl.
  - intros [H|H]%suffix_cons_inv; [|done].
    exfalso. apply Hc. rewrite H. by left.
  - intros [H|H]%suffix_cons_inv; [|by apply IH].
    exfalso. apply Hc. rewrite H. right. apply elem_of_app. right. by left.
Qed.

Lemma startswith_cons_elem (c : ascii) (s : str) :
  startswith s [c] = true → c ∈ s.
Proof.
  destruct s as [|x s]; simpl; [done|].
  rewrite andb_true_r. intros ->%bool_decide_eq_true. by left.
Qed.

Lemma endswith_snoc (c : ascii) (s : str) :
  endswith s [c] = true → ∃ s', s = s' ++ [c].
Proof. intros [k ->]%endswith_suffix. by exists k. Qed.

(** Joining a directory and a name without [/]: the joined path ends
    with a suffix free of [/] exactly when the name does. *)
Lemma endswith_path_join (dir name suf : str) :
  "/"%char ∉ name → "/"%char ∉ suf →
  endswith (path_join dir name) suf = endswith name suf.
Proof.
  intros Hname Hsuf. apply eq_true_iff_eq. rewrite !endswith_suffix.
  unfold path_join.
  destruct (startswith name "/") eqn:E1.
  { by apply (startswith_cons_elem "/") in E1. }
  destruct (bool_decide (dir = []) || endswith dir "/") eqn:E2.
  - split; [|apply suffix_app_r].
    apply orb_true_iff in E2 as [->%bool_decide_eq_true|E2]; [done|].
    apply (endswith_snoc "/") in E2 as [dir' ->].
    rewrite <- (assoc_L (++)). by apply suffix_after_sep.
  - split; [|intros H; by do 2 apply suffix_app_r].
    by apply suffix_after_sep.
Qed.

End PathFacts.


Section Fetcher_claims.
Import Str Fetcher FetcherSpec PathFacts.

(** C9: [hasExistingFile] is true exactly when the path of the derived
    [.kml] name in the output directory exists; this is its only look at
    the file system. *)
Theorem C9_hasExistingFile (w : world) (output_dir href : str) :
  hasExistingFile w output_dir href
  = path_exists w (path_join output_dir (kml_name href)).
Proof.
  unfold hasExistingFile, kml_name.
  rewrite endswith_path_join; [done| |apply (bool_decide_unpack _); by vm_compute].
  apply last_segment_no_sep.
Qed.

Example kml_name_html : kml_name "http://host/adv/a.html.html" = "a.kml.kml".
Proof. reflexivity. Qed.

Example kml_name_other : kml_name "london.202005011200" = "london.202005011200.kml".
Proof. reflexivity. Qed.
End Fetcher_claims.

(** ** The fetch loops *)

Module LoopFacts.
Import Fetcher.

(** What the loop adds: one item for each entry of a subsequence of the
    entries, in their order, and no more than the limit allows. *)
Lemma fetch_loop_spec {E} (body : E → result (option item))
    (n count : nat) (entries : list E) (vaaList : list item) :
  count < n →
  ∃ picked added,
    (fetch_loop body n count entries vaaList).1 = vaaList ++ added
    ∧ picked `sublist_of` entries
    ∧ Forall2 (λ entry it, body entry = Ok (Some it)) picked added
    ∧ count + length added ≤ n.
Proof.
  revert count vaaList. induction entries as [|entry rest IH];
    intros count vaaList Hn; simpl.
  - exists [], []. rewrite app_nil_r. repeat split; [done|constructor|simpl; lia].
  - destruct (body entry) as [[it|]|e] eqn:Hbody.
    + destruct (count + 1 =? n) eqn:Hc.
      * exists [entry], [it]. simpl. repeat split.
        -- by apply sublist_skip, sublist_nil_l.
        -- by repeat constructor.
        -- apply Nat.eqb_eq in Hc. lia.
      * apply Nat.eqb_neq in Hc.
        destruct (IH (count + 1) (vaaList ++ [it])) as
          (picked & added & Hitems & Hsub & Hall & Hlen); [lia|].
        exists (entry :: picked), (it :: added). repeat split.
        -- by rewrite Hitems, <- (assoc_L (++)).
        -- by apply sublist_skip.
        -- by constructor.
        -- simpl. lia.
    + destruct (IH count vaaList Hn) as (picked & added & ? & ? & ? & ?).
      exists picked, added. repeat split; try done. by apply sublist_cons.
    + exists [], []. simpl. rewrite app_nil_r.
      repeat split; [apply sublist_nil_l|constructor|lia].
Qed.
(** The entries of a parser come in the order of the page: those of a
    prefix of the page are a prefix of those of the page. *)
Lemma ListParser_anchors_prefix (self : ListParser.state) (p1 p2 : list event) :
  ListParser.anchors (ListParser.run self p1)
  `prefix_of` ListParser.anchors (ListParser.run self (p1 ++ p2)).
Proof.
  unfold ListParser.run. rewrite foldl_app.
  generalize (foldl ListParser.step self p1). clear self p1. intros self.
  revert self. induction p2 as [|ev p2 IH]; intros self; simpl; [done|].
  etrans; [|apply IH]. clear IH.
  destruct ev as [tag attrs|data|tag]; simpl.
  - unfold ListParser.handle_starttag.
    repeat (case_bool_decide || case_match); simpl; done.
  - unfold ListParser.handle_data. by case_match.
  - unfold ListParser.handle_endtag.
    repeat (case_bool_decide || case_match); simpl;
      try done; by apply prefix_app_r.
Qed.

Lemma Parser_anchors_prefix (self : Parser.state) (p1 p2 : list event) :
  Parser.anchors (Parser.run self p1)
  `prefix_of` Parser.anchors (Parser.run self (p1 ++ p2)).
Proof.
  unfold Parser.run. rewrite foldl_app.
  generalize (foldl Parser.step self p1). clear self p1. intros self.
  revert self. induction p2 as [|ev p2 IH]; intros self; simpl; [done|].
  etrans; [|apply IH]. clear IH.
  destruct ev as [tag attrs|data|tag]; simpl.
  - unfold Parser.handle_starttag.
    repeat (case_bool_decide || case_match); simpl; done.
  - done.
  - unfold Parser.handle_endtag.
    repeat (case_bool_decide || case_match); simpl;
      try done; by apply prefix_app_r.
Qed.

Lemma TableParser_rows_prefix (self : TableParser.state) (p1 p2 : list event) :
  forallb TableParser.no_tbody p2 = true →
  TableParser.rows (TableParser.run self p1)
  `prefix_of` TableParser.rows (TableParser.run self (p1 ++ p2)).
Proof.
  unfold TableParser.run. rewrite foldl_app.
  generalize (foldl TableParser.step self p1). clear self p1. intros self.
  revert self. induction p2 as [|ev p2 IH]; intros self; simpl; [done|].
  intros [Hev Hp2]%andb_true_iff.
  etrans; [|by apply IH]. clear IH.
  destruct ev as [tag attrs|data|tag]; simpl.
  - unfold TableParser.handle_starttag. simpl in Hev.
    apply negb_true_iff in Hev. rewrite Hev.
    repeat (case_bool_decide || case_match); simpl; done.
  - done.
  - unfold TableParser.handle_endtag.
    repeat (case_bool_decide || case_match); simpl;
      try done; by apply prefix_app_r.
Qed.
End LoopFacts.


Section fetch_claims.
Import Fetcher LoopFacts FetchSpec.
Variable w : world.
Variable output_dir : str.

Lemma assemble_spec {E} (body : E → result (option item)) (n : nat)
    (entries : list E) :
  0 < n →
  length (fetch_loop body n 0 entries []).1 ≤ n
  ∧ in_document_order body entries (fetch_loop body n 0 entries []).1.
Proof.
  intros Hn.
  destruct (fetch_loop_spec body n 0 entries [] Hn)
    as (picked & added & -> & Hsub & Hall & Hlen).
  split; [simpl; lia|]. by exists picked.
Qed.

(** C5: each [fetch] adds at most [number_to_fetch] items (10, and 1
    for the test source), however many entries the page lists; the
    items are made from entries in the order of the parsed list; and the
    parsed list is in the order of the page. *)
Theorem C5_fetch_limit :
  (∀ anchors,
     length (ToulouseFetcher.assemble w output_dir anchors).1
     ≤ ToulouseFetcher.number_to_fetch
     ∧ in_document_order (ToulouseFetcher.body w output_dir) anchors
         (ToulouseFetcher.assemble w output_dir anchors).1)
  ∧ (∀ anchors,
       length (AnchorageFetcher.assemble w output_dir anchors).1
       ≤ AnchorageFetcher.number_to_fetch
       ∧ in_document_order (AnchorageFetcher.body w output_dir) anchors
           (AnchorageFetcher.assemble w output_dir anchors).1)
  ∧ (∀ rows,
       length (LondonFetcher.assemble w output_dir rows).1
       ≤ LondonFetcher.number_to_fetch
       ∧ in_document_order (LondonFetcher.body w output_dir) rows
           (LondonFetcher.assemble w output_dir rows).1)
  ∧ length (ToulouseFetcher.fetch w output_dir).1 ≤ 10
  ∧ length (AnchorageFetcher.fetch w output_dir).1 ≤ 10
  ∧ length (LondonFetcher.fetch w output_dir).1 ≤ 10
  ∧ length (TestFetcher.fetch w output_dir).1 ≤ 1
  ∧ (∀ self p1 p2,
       ListParser.anchors (ListParser.run self p1)
       `prefix_of` ListParser.anchors (ListParser.run self (p1 ++ p2)))
  ∧ (∀ self p1 p2,
       Parser.anchors (Parser.run self p1)
       `prefix_of` Parser.anchors (Parser.run self (p1 ++ p2)))
  ∧ (∀ self p1 p2,
       forallb TableParser.no_tbody p2 = true →
       TableParser.rows (TableParser.run self p1)
       `prefix_of` TableParser.rows (TableParser.run self (p1 ++ p2))).
Proof.
  assert (0 < 10) as H10 by lia.
  repeat split.
  - by apply assemble_spec.
  - by apply assemble_spec.
  - by apply assemble_spec.
  - by apply assemble_spec.
  - by apply assemble_spec.
  - by apply assemble_spec.
  - unfold ToulouseFetcher.fetch.
    repeat case_match; simpl; try lia. by apply assemble_spec.
  - unfold AnchorageFetcher.fetch.
    repeat case_match; simpl; try lia. by apply assemble_spec.
  - unfold LondonFetcher.fetch.
    repeat case_match; simpl; try lia. by apply assemble_spec.
  - unfold TestFetcher.fetch. repeat case_match; simpl; lia.
  - apply ListParser_anchors_prefix.
  - apply Parser_anchors_prefix.
  - apply TableParser_rows_prefix.
Qed.
End fetch_claims.


Section failing_inputs.
Import Fetcher Fixtures.

Lemma C5_fetch_limit_witness :
  TableParser.rows (TableParser.run TableParser.init [EndTag "td"; EndTag "tr"])
  `prefix_of`
  TableParser.rows (TableParser.run TableParser.init
                      ([EndTag "td"; EndTag "tr"] ++ [EndTag "td"; EndTag "tr"])).
Proof.
  apply (C5_fetch_limit offline []). reflexivity.
Defined.

(** On a text [feed] raises what the library raises on it; on bytes
    that do not decode it raises [TypeError]. *)
Lemma Parser_feed_text (w : world) (self : Parser.state) (s : str) :
  Parser_feed w self (Text s) = (page ← scan w s; Ok (Parser.feed self page)).
Proof. reflexivity. Qed.

Lemma feed_undecodable (w : world) (b : list ascii) :
  decode w b = None →
  Parser_feed w Parser.init (Bytes b) = Raise TypeError
  ∧ VAAParser_feed w VAAParser.init (Bytes b) = Raise TypeError
  ∧ ListParser_feed w ListParser.init (Bytes b) = Raise TypeError
  ∧ TableParser_feed w TableParser.init (Bytes b) = Raise TypeError.
Proof.
  intros H.
  unfold Parser_feed, VAAParser_feed, ListParser_feed, TableParser_feed.
  simpl. by rewrite H.
Qed.

(** C2 (the code at failing inputs): the loop of [AnchorageFetcher.fetch]
    raises [IndexError] on an anchor marked [X] whose [href] has fewer
    than two path segments, and the loop of [ToulouseFetcher.fetch]
    raises it on a list item with such an [href]. *)
Theorem C2_fetch_raises (w : world) (output_dir : str) :
  AnchorageFetcher.assemble w output_dir
    (Parser.view (Parser.feed Parser.init short_href_page))
  = ([], Some IndexError)
  ∧ ToulouseFetcher.assemble w output_dir
      [(Some ("123.html" : str), "Volcano X" : str, "2020-05-01 12:00" : str)]
    = ([], Some IndexError).
Proof. split; reflexivity. Qed.

(** C3 (the code at a failing input): on a row of the Anchorage list
    whose timestamp cell does not parse, the loop of
    [AnchorageFetcher.fetch] raises instead of passing over the row, and
    the row after it is not processed. *)
Theorem C3_anchorage_raises (w : world) (output_dir : str) :
  AnchorageFetcher.assemble w output_dir
    (Parser.view (Parser.feed Parser.init bad_date_page))
  = ([], Some TypeError).
Proof. reflexivity. Qed.

(** [LondonFetcher.fetch] does pass over a row whose date does not
    parse. *)
Lemma London_skips_unparseable (w : world) (output_dir : str)
    (row : list TableParser.cell) (rest : list (list TableParser.cell)) :
  row ≠ [] → LondonFetcher.row_date w row = None →
  LondonFetcher.assemble w output_dir (row :: rest)
  = LondonFetcher.assemble w output_dir rest.
Proof.
  intros Hrow Hdate. unfold LondonFetcher.assemble. simpl.
  unfold LondonFetcher.body at 1. destruct row as [|c0 row]; [done|].
  simpl. by rewrite Hdate.
Qed.

(** C4 (the code at failing inputs): a second [feed] of the same page to
    the same parser gives another result than the first, for each of
    the four parsers. *)
Theorem C4_feed_twice_differs :
  (let page := [Data "VA ADVISORY"; Data "DTG: 20200501/1200Z"] in
   let p := VAAParser.feed VAAParser.init page in
   VAAParser.text p = "VA ADVISORYDTG: 20200501/1200Z "
   ∧ VAAParser.text (VAAParser.feed p page)
     = "VA ADVISORYDTG: 20200501/1200Z VA ADVISORY DTG: 20200501/1200Z ")
  ∧ (let p := ListParser.feed ListParser.init ListParser.example_item in
     length (ListParser.anchors p) = 1
     ∧ length (ListParser.anchors (ListParser.feed p ListParser.example_item))
       = 2)
  ∧ (let page := [EndTag "tr"; Data "Etna"; EndTag "td"] in
     let p := TableParser.feed TableParser.init page in
     TableParser.rows p = []
     ∧ TableParser.rows (TableParser.feed p page)
       = [[TableParser.Cell "Etna" (Some [])]])
  ∧ (let page := [StartTag "a" []; Data "X"; EndTag "a"] in
     let p := Parser.feed Parser.init page in
     Parser.view p = [(Some [], ["X" : str], [])]
     ∧ Parser.view (Parser.feed p page)
       = [(Some [], ["X" : str; "X" : str], [])]).
Proof. repeat split; reflexivity. Qed.
End failing_inputs.

Module ReFacts2.
Import Re ReFacts Str StrFacts.

Lemma match_star_suffix {T} p s (K : str → option T) t :
  match_star p s K = Some t → ∃ s', K s' = Some t ∧ s' `suffix_of` s.
Proof.
  intros (d & rest & -> & _ & H)%match_star_inv.
  exists rest. split; [done|]. by apply suffix_app_r.
Qed.

Lemma match_lazy_suffix {T} p s (K : str → option T) t :
  match_lazy p s K = Some t → ∃ s', K s' = Some t ∧ s' `suffix_of` s.
Proof.
  induction s as [|c s IH]; simpl.
  - destruct (K []) eqn:E; [|done]. intros [= ->]. by exists [].
  - destruct (K (c :: s)) eqn:E.
    + intros [= ->]. by exists (c :: s).
    + destruct (p c); [|done]. intros (s' & ? & ?)%IH.
      exists s'. split; [done|]. by apply suffix_cons_r.
Qed.

(** What a match leaves is a suffix of the input. *)
Lemma match_re_suffix {T} r s gs (k : cont (T:=T)) t :
  match_re r s gs k = Some t →
  ∃ s' gs', k s' gs' = Some t ∧ s' `suffix_of` s.
Proof.
  revert s gs k. induction r as [l|p|p|p|p|r IH|r IH|r1 IH1 r2 IH2];
    intros s gs k; simpl.
  - destruct (match_lit l s) as [s'|] eqn:E; [|done].
    apply match_lit_Some in E as ->. intros H. exists s', gs.
    split; [done|]. by apply suffix_app_r.
  - destruct s as [|c s]; [done|]. destruct (p c); [|done].
    intros H. exists s, gs. split; [done|]. by apply suffix_cons_r.
  - intros (s' & ? & ?)%match_star_suffix. by exists s', gs.
  - destruct s as [|c s]; [done|]. destruct (p c); [|done].
    intros (s' & ? & ?)%match_star_suffix. exists s', gs.
    split; [done|]. by apply suffix_cons_r.
  - intros (s' & ? & ?)%match_lazy_suffix. by exists s', gs.
  - destruct (match_re r s gs k) eqn:E.
    + intros [= ->]. by apply IH in E.
    + intros H. by exists s, gs.
  - intros (s' & gs' & ? & ?)%IH. by eexists s', _.
  - intros (s1 & gs1 & H & ?)%IH1. apply IH2 in H as (s2 & gs2 & ? & ?).
    exists s2, gs2. split; [done|]. by etrans.
Qed.

(** A match at an offset starts there and spans at least the least
    length of the pattern. *)
Lemma match_at_inv r pos s m :
  match_at r pos s = Some m →
  m_start m = pos ∧ pos + min_len r ≤ m_end m ∧ m_end m ≤ pos + length s.
Proof.
  unfold match_at. intros (s' & gs' & H & Hlen)%match_re_min_len.
  injection H as <-. simpl. repeat split; lia.
Qed.

Lemma search_inv r s m :
  search r s = Some m →
  ∃ pre suf, s = pre ++ suf ∧ match_at r (length pre) suf = Some m.
Proof. intros H. by apply search_from_Some in H. Qed.

End ReFacts2.


Module VAAFacts3.
Import Re ReFacts ReFacts2 Str StrFacts VAAParser VAAFacts VAADefs.

Lemma startswith_app_l (t x p : str) :
  startswith t p = true → startswith (t ++ x) p = true.
Proof. rewrite !startswith_prefix. by apply prefix_app_r. Qed.

Lemma startswith_take (t p : str) (n : nat) :
  startswith t p = true → length p ≤ n → startswith (take n t) p = true.
Proof.
  rewrite !startswith_prefix. intros [k ->] Hn.
  rewrite take_app_ge by done. by apply prefix_app_r.
Qed.

Lemma lstrip_app (a b : str) :
  lstrip (a ++ b) = if lstrip a is [] then lstrip b else lstrip a ++ b.
Proof.
  induction a as [|c a IH]; simpl; [done|].
  destruct (is_space c); [done|]. done.
Qed.

Lemma rstrip_app (a b : str) :
  rstrip (a ++ b) = if rstrip b is [] then rstrip a else a ++ rstrip b.
Proof.
  unfold rstrip. rewrite reverse_app, lstrip_app.
  destruct (lstrip (reverse b)) as [|c l] eqn:E; [done|].
  rewrite reverse_app, reverse_involutive.
  by destruct (reverse (c :: l)) eqn:E'; [apply (f_equal reverse) in E';
    rewrite reverse_involutive in E'|].
Qed.

(** Stripping on the right keeps a prefix that has no white space at its
    end. *)
Lemma startswith_rstrip (t p : str) :
  rstrip p = p → startswith t p = true → startswith (rstrip t) p = true.
Proof.
  intros Hp [k ->]%startswith_prefix. rewrite rstrip_app.
  destruct (rstrip k); rewrite ?Hp; apply startswith_prefix;
    [done|by apply prefix_app_r].
Qed.

Lemma has_header_app (t x : str) :
  has_header t = true → has_header (t ++ x) = true.
Proof.
  unfold has_header. intros [H|H]%orb_true_iff; apply orb_true_iff;
    [left|right]; by apply startswith_app_l.
Qed.

Lemma has_header_rstrip (t : str) :
  has_header t = true → has_header (rstrip t) = true.
Proof.
  unfold has_header. intros [H|H]%orb_true_iff; apply orb_true_iff;
    [left|right]; by apply startswith_rstrip.
Qed.

(** The header found in a chunk: the buffer starts at the phrase. *)
Lemma has_header_search (data : str) (m : match_obj) :
  search header_re data = Some m → has_header (drop (m_start m) data) = true.
Proof.
  intros (pre & suf & -> & H)%search_inv.
  destruct (match_at_inv _ _ _ _ H) as (-> & _).
  rewrite drop_app_length.
  destruct (match_opt_lit "VA " "EXTENDED " "ADVISORY" suf [] _
              (mk_is_Some _ _ H)) as [E|E]; unfold has_header.
  - change ("VA " ++ "ADVISORY") with (list_ascii_of_string "VA ADVISORY") in E.
    by rewrite E.
  - change ("VA " ++ "EXTENDED " ++ "ADVISORY")
      with (list_ascii_of_string "VA EXTENDED ADVISORY") in E.
    by rewrite E, orb_true_r.
Qed.

(** Where the final statement is found in a buffer that starts with a
    header phrase, the match ends after the phrase. *)
Lemma final_after_header (t : str) (m : match_obj) :
  has_header t = true → search final_re t = Some m →
  has_header (take (m_end m) t) = true.
Proof.
  intros Ht (pre & suf & -> & H)%search_inv.
  destruct (match_at_inv _ _ _ _ H) as (_ & Hlo & _).
  change (min_len final_re) with 15 in Hlo.
  assert (startswith suf "N" = true) as HN.
  { unfold match_at in H. simpl in H.
    destruct suf as [|c suf]; [done|]. simpl.
    by destruct (bool_decide ("N"%char = c)). }
  unfold has_header in *. apply orb_true_iff in Ht as [Ht|Ht];
    apply orb_true_iff; [left|right]; apply startswith_take; try done.
  - simpl. lia.
  - simpl. destruct (decide (5 ≤ length pre)); [lia|]. exfalso.
    destruct suf as [|c suf]; [done|]. simpl in HN.
    rewrite andb_true_r in HN. apply bool_decide_eq_true in HN as <-.
    destruct pre as [|? [|? [|? [|? [|? ?]]]]]; simpl in *; try lia;
      repeat (case_bool_decide; simpl in *; try done).
Qed.

Lemma step_has_header (self : state) (ev : event) :
  text self = [] ∧ active self = false ∨ has_header (text self) = true →
  text (step self ev) = [] ∧ active (step self ev) = false
  ∨ has_header (text (step self ev)) = true.
Proof.
  intros I. destruct ev as [tag attrs|data|tag]; simpl; [done| |].
  - unfold handle_data. destruct (0 <? length (strip data)); [|done].
    destruct (active self) eqn:Ha.
    + right. simpl. destruct I as [[_ ?]|I]; [done|]. by apply has_header_app.
    + destruct (search header_re (strip data)) as [m|] eqn:E;
        [|by rewrite Ha].
      right. simpl. by apply has_header_search.
  - unfold handle_endtag. destruct (active self) eqn:Ha; [|by rewrite Ha].
    destruct I as [[_ ?]|I]; [done|]. right.
    set (text1 := if bool_decide _ then _ else _).
    assert (has_header text1 = true) as H1.
    { unfold text1. case_bool_decide; [|done].
      by apply has_header_app, has_header_rstrip. }
    destruct (search final_re text1) as [m|] eqn:E; simpl; [|done].
    by apply final_after_header.
Qed.

End VAAFacts3.

Section VAAParser_more.
Import Re Str VAAParser VAAFacts VAAFacts3 VAADefs.

(** X1: whatever the page, the text a fresh parser extracts is empty or
    begins with [VA ADVISORY] or [VA EXTENDED ADVISORY]. *)
Theorem extracted_text_starts_with_header (page : list event) :
  parse page = [] ∨ has_header (parse page) = true.
Proof.
  unfold parse, feed, run.
  assert (∀ self,
    text self = [] ∧ active self = false ∨ has_header (text self) = true →
    text (foldl step self page) = [] ∧ active (foldl step self page) = false
    ∨ has_header (text (foldl step self page)) = true) as H.
  { induction page as [|ev page IH]; intros self I; simpl; [done|].
    by apply IH, step_has_header. }
  destruct (H init) as [[? _]|?]; [by left|by left|by right].
Qed.
End VAAParser_more.

Module VAAFacts4.
Import Re ReFacts ReFacts2 Str StrFacts VAAParser VAAFacts VAADefs VAAFacts3.

(** A match of the final statement ends with the newline of its
    pattern and begins with [NXT ADVISORY:]. *)
Lemma final_match_shape (pos : nat) (s : str) (m : match_obj) :
  match_at final_re pos s = Some m →
  ∃ body rest,
    s = "NXT ADVISORY:" ++ body ++ [newline] ++ rest
    ∧ m_end m = pos + length ("NXT ADVISORY:" ++ body ++ [newline]).
Proof.
  unfold match_at, final_re, seq. cbn [foldr]. cbn [match_re].
  destruct (match_lit "NXT ADVISORY:" s) as [s0|] eqn:E0; [|done].
  apply match_lit_Some in E0 as ->.
  intros (s1 & H1 & [k1 Hs1])%match_star_suffix.
  destruct s1 as [|c s1]; [done|]. destruct (is_word c); [|done].
  apply match_star_suffix in H1 as (s2 & H2 & [k2 Hs2]).
  apply match_lazy_suffix in H2 as (s3 & H3 & [k3 Hs3]).
  destruct (match_lit [newline] s3) as [s4|] eqn:E4; [|done].
  apply match_lit_Some in E4 as ->. simpl in H3. injection H3 as <-.
  subst. exists (k1 ++ c :: k2 ++ k3), s4. split.
  - f_equal. rewrite <- (assoc_L (++)). f_equal. simpl. f_equal.
    by rewrite <- (assoc_L (++)).
  - simpl. rewrite !length_app. simpl. rewrite !length_app. simpl. lia.
Qed.

Lemma endswith_snoc_app (a : str) (c : ascii) : endswith (a ++ [c]) [c] = true.
Proof. apply endswith_suffix. by apply suffix_app_r. Qed.

(** The buffer cut at the end of the final statement. *)
Lemma final_cut (t : str) (m : match_obj) :
  search final_re t = Some m →
  endswith (take (m_end m) t) [newline] = true
  ∧ contains "NXT ADVISORY:" (take (m_end m) t) = true.
Proof.
  intros (pre & suf & -> & H)%search_inv.
  apply final_match_shape in H as (body & rest & -> & ->).
  replace ("NXT ADVISORY:" ++ body ++ [newline] ++ rest)
    with (("NXT ADVISORY:" ++ body ++ [newline]) ++ rest)
    by (by rewrite <- !(assoc_L (++))).
  rewrite take_app_add' by done. rewrite take_app_length.
  split.
  - rewrite !(assoc_L (++)). apply endswith_snoc_app.
  - apply contains_spec. by exists pre, (body ++ [newline]).
Qed.

Lemma step_inactive_shape (self : state) (ev : event) :
  (active self = false →
   text self = []
   ∨ endswith (text self) [newline] = true
     ∧ contains "NXT ADVISORY:" (text self) = true) →
  active (step self ev) = false →
  text (step self ev) = []
  ∨ endswith (text (step self ev)) [newline] = true
    ∧ contains "NXT ADVISORY:" (text (step self ev)) = true.
Proof.
  intros I. destruct ev as [tag attrs|data|tag]; simpl; [done| |].
  - unfold handle_data. destruct (0 <? length (strip data)); [|done].
    destruct (active self) eqn:Ha; [done|].
    destruct (search header_re (strip data)); [done|]. rewrite Ha. auto.
  - unfold handle_endtag. destruct (active self) eqn:Ha; [|rewrite Ha; auto].
    set (text1 := if bool_decide _ then _ else _).
    destruct (search final_re text1) as [m|] eqn:E; simpl; [|done].
    intros _. right. by apply final_cut.
Qed.

Lemma run_cons (self : state) (ev : event) (page : list event) :
  run self (ev :: page) = run (step self ev) page.
Proof. done. Qed.

Lemma run_snoc (self : state) (page : list event) (ev : event) :
  run self (page ++ [ev]) = step (run self page) ev.
Proof. unfold run. by rewrite foldl_app. Qed.

(** The buffer of an active parser over text chunks and start tags. *)
Lemma run_chunks (t : str) (chunks : list str) :
  run (State true t) (Data <$> chunks) = State true (t ++ appended chunks).
Proof.
  revert t. induction chunks as [|data chunks IH]; intros t.
  - unfold appended. simpl. by rewrite app_nil_r.
  - rewrite fmap_cons, run_cons. simpl. unfold handle_data. simpl.
    unfold appended in *. rewrite fmap_cons. simpl.
    destruct (0 <? length (strip data)).
    + rewrite IH. by rewrite <- !(assoc_L (++)).
    + by rewrite IH.
Qed.
End VAAFacts4.

Section VAAParser_more2.
Import Re Str VAAParser VAAFacts VAAFacts3 VAAFacts4 VAADefs.

(** X2: when a fresh parser is inactive at the end of a page, the text
    it extracted is empty (no header was found) or is a closed message:
    it contains [NXT ADVISORY:] and ends with a newline. *)
Theorem inactive_text_is_closed (page : list event) :
  active (run init page) = false →
  parse page = []
  ∨ endswith (parse page) [newline] = true
    ∧ contains "NXT ADVISORY:" (parse page) = true.
Proof.
  unfold parse, feed.
  induction page as [|ev page IH] using rev_ind; [by left|].
  rewrite run_snoc. by apply step_inactive_shape.
Qed.

Lemma inactive_text_is_closed_witness :
  let page := [Data "VA ADVISORY"; EndTag "p"; Data "NXT ADVISORY: NONE";
               EndTag "p"; Data "after"] in
  parse page = []
  ∨ endswith (parse page) [newline] = true
    ∧ contains "NXT ADVISORY:" (parse page) = true.
Proof.
  intros page. apply (inactive_text_is_closed page). reflexivity.
Defined.

(** X3: from the chunk with the header on, and as long as no end tag
    arrives, the buffer is the chunk from the header on followed by the
    later chunks, each stripped and, unless empty, followed by one
    space. *)
Theorem header_then_chunks
    (self : state) (data : str) (m : match_obj) (chunks : list str) :
  active self = false →
  search header_re (strip data) = Some m →
  run self (Data data :: (Data <$> chunks))
  = State true (drop (m_start m) (strip data) ++ appended chunks).
Proof.
  intros Ha Hm. rewrite run_cons. simpl.
  rewrite (handle_data_header _ _ _ Ha Hm). apply run_chunks.
Qed.

Lemma header_then_chunks_witness :
  run init (Data "see VA ADVISORY" :: (Data <$> [" DTG: 1 " : str; "  " : str; "VOLCANO: X" : str]))
  = State true
      (drop 4 (strip "see VA ADVISORY")
       ++ appended [" DTG: 1 " : str; "  " : str; "VOLCANO: X" : str]).
Proof.
  apply (header_then_chunks init "see VA ADVISORY" (Match 4 15 [])); reflexivity.
Defined.
End VAAParser_more2.

Module ListFacts2.
Import Re ReFacts Str StrFacts ListParser ListFacts ListDefs.

Lemma step_no_ul (self : state) (ev : event) :
  active self = false → no_ul ev = true → step self ev = self.
Proof.
  intros Ha Hev. destruct ev as [tag attrs|data|tag]; simpl.
  - unfold handle_starttag. simpl in Hev. apply negb_true_iff in Hev.
    rewrite Hev. by rewrite Ha.
  - unfold handle_data. by rewrite Ha.
  - unfold handle_endtag. case_bool_decide; simpl; [|by rewrite Ha].
    destruct self; simpl in *; by subst.
Qed.

Lemma date_re_shape (date : str) :
  fullmatch date_re date = true → date_shape date = true.
Proof.
  intros H. apply fullmatch_consume in H; [|done].
  pose proof (consume_length date_re date [] eq_refl H) as Hlen.
  change (min_len date_re) with 16 in Hlen. simpl in Hlen.
  do 17 (destruct date as [|? date]; simpl in Hlen; try lia).
  cbn in H.
  repeat (match type of H with
          | context [if is_digit ?c then _ else _] =>
              destruct (is_digit c) eqn:?; [|discriminate H]
          | context [if bool_decide (?x = ?c) then _ else _] =>
              destruct (bool_decide (x = c)) eqn:?; [|discriminate H]
          end; cbn in H).
  unfold date_shape.
  repeat match goal with
         | E : bool_decide (_ = _) = true |- _ =>
             apply bool_decide_eq_true in E; subst
         end.
  reflexivity.
Qed.

Lemma step_well_formed (self : state) (ev : event) :
  forallb well_formed (anchors self) = true →
  forallb well_formed (anchors (step self ev)) = true.
Proof.
  intros I. destruct ev as [tag attrs|data|tag]; simpl.
  - unfold handle_starttag.
    repeat (case_bool_decide || case_match); simpl; done.
  - unfold handle_data. by case_match.
  - unfold handle_endtag.
    repeat (case_bool_decide || case_match); simpl; try done.
    + match goal with H : search _ _ = Some _ |- _ =>
        apply search_item_inv in H
          as (pre & desc & date & post & _ & Hdesc & Hdate & -> & ->) end.
      rewrite forallb_app, I. simpl. unfold well_formed. simpl.
      by rewrite Hdesc, (date_re_shape _ Hdate).
Qed.
End ListFacts2.

Section ListParser_more.
Import Re Str ListParser ListFacts2 ListDefs.

(** X4: outside a [ul] nothing is captured: a page without a [ul]
    start tag leaves an inactive parser as it is, so a fresh parser
    gives no entry for it. *)
Theorem no_list_no_entries (self : state) (page : list event) :
  active self = false → forallb no_ul page = true →
  run self page = self.
Proof.
  intros Ha. induction page as [|ev page IH]; [done|]. simpl.
  intros [Hev Hp]%andb_true_iff. unfold run in *. simpl.
  rewrite step_no_ul by done. by apply IH.
Qed.

Lemma no_list_no_entries_witness :
  run init [StartTag "li" [];
            StartTag "a" [("href"%string, Some ("/adv/123.html" : str))];
            Data "Volcano X - 2020-05-01 12:00 utc"; EndTag "a"; EndTag "li"]
  = init.
Proof. apply no_list_no_entries; reflexivity. Defined.

(** X5: whatever the page, every entry of a fresh parser has a volcano
    without a newline in it and a date of sixteen characters, with [-]
    as the fifth and the eighth, a space as the eleventh and [:] as the
    fourteenth.  (What the other twelve are is the business of the
    class [\d] of the library.) *)
Theorem entries_well_formed (page : list event) :
  forallb well_formed (anchors (feed init page)) = true.
Proof.
  unfold feed, run.
  assert (∀ self, forallb well_formed (anchors self) = true →
            forallb well_formed (anchors (foldl step self page)) = true) as H.
  { induction page as [|ev page IH]; intros self I; simpl; [done|].
    by apply IH, step_well_formed. }
  by apply H.
Qed.
End ListParser_more.


Section TableParser_more.
Import Str TableParser TableFacts TableDefs.

(** X6: no row of the result is empty, whatever the page and whatever
    state the parser was in before [feed]. *)
Theorem rows_nonempty (self : state) (page : list event) :
  Forall (λ r, r ≠ []) (rows (feed self page)).
Proof.
  apply Forall_forall. intros r Hr.
  pose proof (run_rows_nonempty
                (State (href self) (text self) (row self) []) page eq_refl)
    as H.
  rewrite forallb_forall in H. apply list_elem_of_In, H in Hr.
  by destruct r.
Qed.

(** X7: the text of a cell is the concatenation of its stripped text
    chunks with nothing between them, and the end of the cell sets
    [text] and [href] back to empty. *)
Theorem cell_of_chunks (self : state) (chunks : list str) :
  run self ((Data <$> chunks) ++ [EndTag "td"])
  = State (Some []) []
      (row self ++ [Cell (text self ++ concat (strip <$> chunks)) (href self)])
      (rows self).
Proof. rewrite table_run_snoc, table_run_chunks. reflexivity. Qed.

(** X8: no completed cell is lost or made up: between [tbody] starts,
    the cells of the rows and of the row under construction are as many
    as the [td] end tags. *)
Theorem cells_counted (page : list event) :
  forallb no_tbody page = true →
  length (concat (rows (run init page))) + length (row (run init page))
  = count_td page.
Proof.
  intros Hpage.
  assert (∀ self,
    length (concat (rows (run self page))) + length (row (run self page))
    = length (concat (rows self)) + length (row self) + count_td page) as H.
  { induction page as [|ev page IH]; intros self.
    - unfold count_td. simpl. lia.
    - simpl in Hpage. apply andb_true_iff in Hpage as [Hev Hpage].
      rewrite table_run_cons, IH, step_cells, count_td_cons by done. lia. }
  rewrite H. simpl. lia.
Qed.

Lemma cells_counted_witness :
  let page := [StartTag "tr" []; Data "Etna"; EndTag "td"; Data "x";
               EndTag "td"; EndTag "tr"; Data "y"; EndTag "td"] in
  length (concat (rows (run init page))) + length (row (run init page))
  = count_td page.
Proof. intros page. apply (cells_counted page). reflexivity. Defined.
End TableParser_more.

Module ParserFacts.
Import Str Parser ParserDefs.

Lemma parser_run_cons (self : state) (ev : event) (page : list event) :
  run self (ev :: page) = run (step self ev) page.
Proof. done. Qed.

Lemma parser_run_snoc (self : state) (page : list event) (ev : event) :
  run self (page ++ [ev]) = step (run self page) ev.
Proof. unfold run. by rewrite foldl_app. Qed.

Lemma wf_unfold (self : state) :
  wf self = true ↔
  S (text self) = length (texts self)
  ∧ table_row self < length (tables self)
  ∧ Forall (Forall (λ t, t < text self)) (tables self).
Proof.
  unfold wf. rewrite !andb_true_iff, Nat.eqb_eq, Nat.ltb_lt.
  rewrite forallb_forall, Forall_forall.
  split; [intros ((H1 & H2) & H)|intros (H1 & H2 & H)]; repeat split;
    try done.
  - intros r Hr. apply list_elem_of_In, H in Hr.
    rewrite forallb_forall in Hr. apply Forall_forall.
    intros t Ht. apply list_elem_of_In, Hr in Ht. by apply Nat.ltb_lt.
  - intros r Hr. apply list_elem_of_In, H in Hr.
    rewrite Forall_forall in Hr. apply forallb_forall.
    intros t Ht. apply list_elem_of_In, Hr in Ht. by apply Nat.ltb_lt.
Qed.

Lemma wf_step (self : state) (ev : event) :
  wf self = true → wf (step self ev) = true.
Proof.
  rewrite !wf_unfold. intros (Ht & Hr & Hall).
  destruct ev as [tag attrs|data|tag]; simpl.
  - unfold handle_starttag.
    case_bool_decide; [done|].
    destruct (_ || _); [|done]. simpl. rewrite length_app. simpl.
    repeat split; [done|lia|].
    apply Forall_app. split; [done|]. by repeat constructor.
  - rewrite length_alter. done.
  - unfold handle_endtag.
    case_bool_decide; [done|].
    destruct (_ || _); [|done]. simpl. rewrite length_app, length_alter.
    simpl. repeat split; [lia|done|].
    rewrite Forall_forall. intros r Hin.
    apply list_elem_of_lookup in Hin as [i Hi].
    destruct (decide (i = table_row self)) as [->|Hne].
    + rewrite list_lookup_alter_eq in Hi.

      destruct (tables self !! table_row self) as [r0|] eqn:E;
        simpl in Hi; [|discriminate].
      injection Hi as <-.
      apply Forall_app. split.
      * rewrite Forall_forall in Hall.
        eapply Forall_impl; [eapply Hall, list_elem_of_lookup_2, E|].
        simpl. intros. lia.
      * repeat constructor. lia.
    + rewrite list_lookup_alter_ne in Hi by done.
      rewrite Forall_forall in Hall.
      eapply Forall_impl; [eapply Hall, list_elem_of_lookup_2, Hi|].
      simpl. intros. lia.
Qed.

Lemma wf_run (self : state) (page : list event) :
  wf self = true → wf (run self page) = true.
Proof.
  revert self. induction page as [|ev page IH]; intros self H; [done|].
  rewrite parser_run_cons. by apply IH, wf_step.
Qed.

Lemma handle_endtag_td (self : state) :
  handle_endtag self "td"
  = State (href self) (length (texts self)) (table_row self) (anchors self)
      (texts self ++ [[]])
      (alter (λ r, r ++ [text self]) (table_row self) (tables self)).
Proof. reflexivity. Qed.

Lemma wf_init : wf init = true.
Proof. reflexivity. Qed.

Lemma parser_run_chunks (self : state) (chunks : list str) :
  run self (Data <$> chunks)
  = State (href self) (text self) (table_row self) (anchors self)
      (alter (λ t, t ++ (strip <$> chunks)) (text self) (texts self))
      (tables self).
Proof.
  revert self. induction chunks as [|data chunks IH]; intros self.
  - simpl. destruct self as [h t r a ts tb]. simpl. f_equal.
    symmetry. apply list_eq. intros i.
    destruct (decide (i = t)) as [->|Hne].
    + rewrite list_lookup_alter_eq. destruct (ts !! t); simpl; [|done].
      by rewrite app_nil_r.
    + by rewrite list_lookup_alter_ne.
  - rewrite fmap_cons, parser_run_cons, IH. simpl. f_equal.
    apply list_eq. intros i.
    destruct (decide (i = text self)) as [->|Hne].
    + rewrite !list_lookup_alter_eq. destruct (texts self !! text self); simpl; [|done].
      by rewrite <- (assoc_L (++)).
    + by rewrite !list_lookup_alter_ne.
Qed.
End ParserFacts.

Section Parser_more.
Import Str Parser ParserDefs ParserFacts.

(** X9: the tuple that the end of an anchor appends holds the list
    objects themselves.  At any point of a page read by a new parser,
    the text chunks that follow the end tag of the anchor inside the
    same cell are part of the text of the anchor, and once the cell is
    closed that text is also the last cell of the row of the anchor. *)
Theorem anchor_sees_later_chunks (pre : list event) (chunks : list str) :
  let self := run init pre in
  let text1 := deref_text self (text self) ++ (strip <$> chunks) in
  last (view (run self (EndTag "a" :: (Data <$> chunks) ++ [EndTag "td"])))
  = Some (href self, text1, deref_table self (table_row self) ++ [text1]).
Proof.
  intros self text1.
  pose proof (wf_run init pre wf_init) as Hwf. fold self in Hwf.
  apply wf_unfold in Hwf as (Ht & Hr & Hall).
  rewrite parser_run_cons, parser_run_snoc, parser_run_chunks. simpl.
  rewrite handle_endtag_td. simpl.
  unfold view. simpl. rewrite fmap_app. simpl. rewrite last_snoc. simpl.
  set (self2 := State _ _ _ _ _ _).
  destruct (lookup_lt_is_Some_2 (texts self) (text self)) as [t0 Et0]; [lia|].
  destruct (lookup_lt_is_Some_2 (tables self) (table_row self)) as [r0 Er0];
    [lia|].
  assert (text1 = t0 ++ (strip <$> chunks)) as Etext1.
  { unfold text1, deref_text. by rewrite Et0. }
  assert (∀ t, t ≤ text self →
            deref_text self2 t
            = if decide (t = text self) then text1 else deref_text self t)
    as Hderef.
  { intros t Hle. unfold deref_text. simpl.
    rewrite lookup_app_l by (rewrite length_alter; lia).
    case_decide as Heq.
    - subst t. rewrite list_lookup_alter_eq, Et0. simpl. by rewrite Etext1.
    - by rewrite list_lookup_alter_ne. }
  do 2 f_equal; [f_equal|].
  - rewrite Hderef by lia. by rewrite decide_True.
  - unfold deref_table. simpl. rewrite list_lookup_alter_eq, Er0. simpl.
    rewrite fmap_app. simpl. rewrite Hderef by lia.
    rewrite decide_True by done. f_equal.
    apply Forall_fmap_ext_1.
    rewrite Forall_forall in Hall.
    eapply Forall_impl; [eapply Hall, list_elem_of_lookup_2, Er0|].
    simpl. intros t Hlt. rewrite Hderef by lia.
    rewrite decide_False by lia. done.
Qed.
End Parser_more.

Module LoopFacts2.
Import Fetcher LoopDefs.

Lemma successes_cons {E} (body : E → result (option item)) (e : E)
    (entries : list E) :
  successes body (e :: entries)
  = match body e with
    | Ok (Some it) => it :: successes body entries
    | _ => successes body entries
    end.
Proof. unfold successes. simpl. by destruct (body e) as [[it|]|x]. Qed.

Lemma fetch_loop_passes {E} (body : E → result (option item))
    (n count : nat) (entries : list E) (vaaList : list item) :
  forallb (passes body) entries = true →
  fetch_loop body n count entries vaaList
  = (vaaList ++ (if count <? n then take (n - count) (successes body entries)
                 else successes body entries), None).
Proof.
  revert count vaaList. induction entries as [|entry rest IH];
    intros count vaaList Hall; simpl.
  - destruct (count <? n); by rewrite ?take_nil, app_nil_r.
  - simpl in Hall. apply andb_true_iff in Hall as [He Hall].
    unfold passes in He. unfold successes. simpl.
    destruct (body entry) as [[it|]|e] eqn:Hbody; [| |done]; simpl.
    + fold (successes body rest).
      destruct (count + 1 =? n) eqn:Hc.
      * apply Nat.eqb_eq in Hc.
        assert ((count <? n) = true) as -> by (apply Nat.ltb_lt; lia).
        replace (n - count) with 1 by lia. simpl. by rewrite take_0.
      * apply Nat.eqb_neq in Hc. rewrite IH by done.
        rewrite <- app_assoc. simpl.
        destruct (count <? n) eqn:Hlt.
        -- apply Nat.ltb_lt in Hlt.
           assert ((count + 1 <? n) = true) as -> by (apply Nat.ltb_lt; lia).
           replace (n - count) with (S (n - (count + 1))) by lia. done.
        -- apply Nat.ltb_ge in Hlt.
           assert ((count + 1 <? n) = false) as -> by (apply Nat.ltb_ge; lia).
           done.
    + fold (successes body rest). by apply IH.
Qed.

Lemma fetch_loop_app {E} (body : E → result (option item))
    (n count : nat) (pre post : list E) (vaaList : list item) :
  forallb (passes body) pre = true →
  count + length (successes body pre) < n →
  fetch_loop body n count (pre ++ post) vaaList
  = fetch_loop body n (count + length (successes body pre)) post
      (vaaList ++ successes body pre).
Proof.
  revert count vaaList. induction pre as [|entry rest IH];
    intros count vaaList Hall Hlen; simpl.
  - by rewrite Nat.add_0_r, app_nil_r.
  - simpl in Hall. apply andb_true_iff in Hall as [He Hall].
    unfold passes in He. rewrite successes_cons in *.
    destruct (body entry) as [[it|]|e] eqn:Hbody; [| |done]; simpl in *.
    + assert ((count + 1 =? n) = false) as -> by (apply Nat.eqb_neq; lia).
      rewrite IH by (done || lia). rewrite <- app_assoc. simpl.
      f_equal. lia.
    + by apply IH.
Qed.

Lemma fetch_loop_none {E} (body : E → result (option item))
    (n count : nat) (entries : list E) (vaaList : list item) :
  (∀ e it, body e ≠ Ok (Some it)) →
  (fetch_loop body n count entries vaaList).1 = vaaList.
Proof.
  intros Hnone. induction entries as [|entry rest IH]; simpl; [done|].
  destruct (body entry) as [[it|]|e] eqn:Hbody; [|done|done].
  by destruct (Hnone entry it).
Qed.

Lemma fetch_loop_all_none {E} (body : E → result (option item))
    (n count : nat) (entries : list E) (vaaList : list item) :
  (∀ e it, body e ≠ Ok (Some it)) →
  (fetch_loop body n count entries vaaList).2 = None
  ↔ Forall (λ e, body e = Ok None) entries.
Proof.
  intros Hnone. induction entries as [|entry rest IH]; simpl.
  - split; [constructor|done].
  - destruct (body entry) as [[it|]|e] eqn:Hbody.
    + by destruct (Hnone entry it).
    + rewrite IH. split; [by constructor|]. by intros [_ ?]%Forall_cons.
    + simpl. split; [done|]. intros [H _]%Forall_cons. congruence.
Qed.
End LoopFacts2.

Section loop_more.
Import Fetcher LoopDefs LoopFacts2 FixtureDefs.

(** X11: when the loop body raises at no entry, the loop of a [fetch]
    with a limit [n] above 0 ends without an exception and adds the
    items of the first [n] entries that give one. *)
Theorem fetch_loop_takes_first {E} (body : E → result (option item))
    (n : nat) (entries : list E) :
  0 < n → forallb (passes body) entries = true →
  fetch_loop body n 0 entries [] = (take n (successes body entries), None).
Proof.
  intros Hn Hall. rewrite fetch_loop_passes by done.
  assert ((0 <? n) = true) as -> by by apply Nat.ltb_lt.
  by rewrite Nat.sub_0_r.
Qed.

Lemma fetch_loop_takes_first_witness :
  let entries : list ListParser.entry :=
    [(Some ("/a/1/x.html" : str), "Etna" : str, "2020-05-01 12:00" : str);
     (Some ("/a/2/x.html" : str), "Hekla" : str, "2020-05-02 12:00" : str)] in
  fetch_loop (ToulouseFetcher.body served []) 1 0 entries []
  = (take 1 (successes (ToulouseFetcher.body served []) entries), None).
Proof.
  intros entries.
  apply (fetch_loop_takes_first (ToulouseFetcher.body served []) 1 entries);
    [lia|reflexivity].
Defined.

(** X12: when the loop body raises at an entry before the limit is
    reached, the loop ends with that exception; the items that were
    added before stay in the list, and no later entry is looked at. *)
Theorem fetch_loop_keeps_items {E} (body : E → result (option item))
    (n : nat) (pre post : list E) (entry : E) (e : exn) :
  forallb (passes body) pre = true →
  length (successes body pre) < n →
  body entry = Raise e →
  fetch_loop body n 0 (pre ++ entry :: post) []
  = (successes body pre, Some e).
Proof.
  intros Hall Hlen He. rewrite fetch_loop_app by done. simpl. by rewrite He.
Qed.

Lemma fetch_loop_keeps_items_witness :
  let good : ListParser.entry :=
    (Some ("/a/1/x.html" : str), "Etna" : str, "2020-05-01 12:00" : str) in
  let bad : ListParser.entry :=
    (Some ("x.html" : str), "Hekla" : str, "2020-05-02 12:00" : str) in
  fetch_loop (ToulouseFetcher.body served []) 10 0 ([good] ++ bad :: [good]) []
  = (successes (ToulouseFetcher.body served []) [good], Some IndexError).
Proof.
  intros good bad.
  apply (fetch_loop_keeps_items (ToulouseFetcher.body served []) 10 [good]
           [good] bad IndexError); [reflexivity|simpl; lia|reflexivity].
Defined.
End loop_more.

Module AnchorageFacts.
Import Fetcher AnchorageFetcher.

Lemma body_no_item (w : world) (output_dir : str) (entry : Parser.entry)
    (it : item) :
  body w output_dir entry ≠ Ok (Some it).
Proof.
  destruct entry as [[href text] table_text]. unfold body.
  destruct (if bool_decide (Str.join [] text = "X")
            then info ← split_slash href; seg ← index_back info 2;
                 Ok (bool_decide ((seg : str) = "VAA"))
            else Ok false : result bool) as [[|]|e]; simpl; [|done|done].
  destruct (index table_text 0); simpl; done.
Qed.
End AnchorageFacts.

Section Anchorage_more.
Import Fetcher AnchorageFetcher LoopFacts2 AnchorageFacts.

(** X10: [AnchorageFetcher.fetch] never adds an item: the cells of
    [table_text] are lists of strings, so [strptime] raises at every
    anchor that the test selects.  The loop ends without an exception
    exactly when it passes over every anchor. *)
Theorem anchorage_adds_nothing (w : world) (output_dir : str) :
  (fetch w output_dir).1 = []
  ∧ ∀ anchors,
      (assemble w output_dir anchors).1 = []
      ∧ ((assemble w output_dir anchors).2 = None
         ↔ Forall (λ e, body w output_dir e = Ok None) anchors).
Proof.
  split.
  - unfold fetch. repeat case_match; try done.
    apply fetch_loop_none, body_no_item.
  - intros anchors. split.
    + apply fetch_loop_none, body_no_item.
    + apply fetch_loop_all_none, body_no_item.
Qed.
End Anchorage_more.

Section London_more.
Import Fetcher LondonFetcher FixtureDefs.

(** X13: the loop of [LondonFetcher.fetch] passes over every row of the
    parsed table whose date does not parse, also a row of one cell:
    a row of the parser is never empty, so [row[0]] does not raise. *)
Theorem london_skips_bad_date (w : world) (output_dir : str)
    (self : TableParser.state) (page : list event)
    (row : list TableParser.cell) :
  row ∈ TableParser.rows (TableParser.feed self page) →
  row_date w row = None →
  body w output_dir row = Ok None.
Proof.
  intros Hrow Hdate.
  pose proof (TableFacts.run_rows_nonempty
                (TableParser.State (TableParser.href self)
                   (TableParser.text self) (TableParser.row self) [])
                page eq_refl) as H.
  rewrite forallb_forall in H. apply list_elem_of_In, H in Hrow.
  destruct row as [|c0 row]; [done|].
  unfold body. simpl. by rewrite Hdate.
Qed.

Lemma london_skips_bad_date_witness :
  body Fixtures.offline [] [TableParser.Cell "Etna" (Some [])] = Ok None.
Proof.
  apply (london_skips_bad_date Fixtures.offline [] TableParser.init
           [Data "Etna"; EndTag "td"; EndTag "tr"]).
  - vm_compute. by left.
  - reflexivity.
Defined.

(** X14: a row whose date parses but which has fewer than four cells
    makes the loop of [LondonFetcher.fetch] raise, and no item is made
    from it: [IndexError], unless the row has three cells and [urljoin]
    raises on the link of the third, which is looked at before the
    fourth cell; then the exception is that of [urljoin]. *)
Theorem london_short_row_raises (w : world) (output_dir : str)
    (row : list TableParser.cell) (d : datetime) :
  row_date w row = Some d → length row < 4 →
  body w output_dir row
  = match row !! 2 with
    | Some c2 =>
        match urljoin w LondonFetcher.url (TableParser.c_href c2) with
        | Ok _ => Raise IndexError
        | Raise e => Raise e
        end
    | None => Raise IndexError
    end.
Proof.
  intros Hdate Hlen. unfold body.
  destruct row as [|c0 [|c1 [|c2 [|c3 row]]]]; simpl in *; try lia;
    try done; by rewrite Hdate.
Qed.

Lemma london_short_row_raises_witness :
  body bad_links []
    [TableParser.Cell "Etna" (Some []);
     TableParser.Cell "12:00 on 01 May 2020" (Some []);
     TableParser.Cell "" (Some (list_ascii_of_string "//[x"))]
  = Raise ValueError.
Proof.
  apply (london_short_row_raises bad_links []
           [TableParser.Cell "Etna" (Some []);
            TableParser.Cell "12:00 on 01 May 2020" (Some []);
            TableParser.Cell "" (Some (list_ascii_of_string "//[x"))]
           (DateTime 2020 5 1 12 0 0));
    [reflexivity|simpl; lia].
Defined.
End London_more.

Module StrFacts2.
Import Str StrFacts.

Lemma split_nonempty (sep : ascii) (s : str) : split sep s ≠ [].
Proof.
  destruct s as [|c s]; simpl; [done|].
  case_bool_decide; [done|]. by destruct (split sep s).
Qed.

Lemma split_app (sep : ascii) (a b : str) :
  split sep (a ++ sep :: b) = split sep a ++ split sep b.
Proof.
  induction a as [|c a IH]; simpl.
  - by rewrite bool_decide_eq_true_2.
  - rewrite IH. case_bool_decide; [done|].
    pose proof (split_nonempty sep a).
    by destruct (split sep a).
Qed.

Lemma split_id (sep : ascii) (s : str) : sep ∉ s → split sep s = [s].
Proof.
  induction s as [|c s IH]; simpl; [done|].
  intros [Hc Hs]%not_elem_of_cons.
  rewrite bool_decide_eq_false_2 by done. by rewrite IH.
Qed.

Lemma join_split (sep : ascii) (s : str) : join [sep] (split sep s) = s.
Proof.
  induction s as [|c s IH]; simpl; [done|].
  pose proof (split_nonempty sep s) as Hne.
  case_bool_decide as Hc.
  - subst c. destruct (split sep s) as [|seg segs]; [done|].
    simpl in *. by rewrite IH.
  - destruct (split sep s) as [|seg segs]; [done|].
    destruct segs as [|seg2 segs]; simpl in *; by rewrite <- IH.
Qed.

Lemma replace_from_cons (old new : str) (c : ascii) (s : str) :
  replace_from old new 0 (c :: s)
  = if startswith (c :: s) old
    then new ++ replace_from old new (length old - 1) s
    else c :: replace_from old new 0 s.
Proof. reflexivity. Qed.

(** [.html] has no proper prefix that is also a suffix of it: an
    occurrence of it at the start of [stem + ".html"] lies in [stem]. *)
Lemma startswith_html (stem : str) :
  startswith (stem ++ ".html") ".html" = true →
  stem = [] ∨ startswith stem ".html" = true.
Proof.
  destruct stem as [|a [|b [|c [|d [|e s]]]]]; [by left|..]; intros H; right;
    cbn in H |- *; repeat case_bool_decide; simplify_eq; done.
Qed.

Lemma replace_html (stem : str) :
  contains ".html" stem = false →
  replace ".html" ".kml" (stem ++ ".html") = stem ++ ".kml".
Proof.
  unfold replace. induction stem as [|c stem IH]; [done|].
  intros H.
  change (contains ".html" (c :: stem))
    with (startswith (c :: stem) ".html" || contains ".html" stem) in H.
  apply orb_false_iff in H as [H1 H2].
  change ((c :: stem) ++ ".html") with (c :: (stem ++ ".html")).
  rewrite replace_from_cons.
  destruct (startswith (c :: stem ++ ".html") ".html") eqn:E.
  - apply (startswith_html (c :: stem)) in E as [?|E]; [done|congruence].
  - rewrite IH by done. done.
Qed.

Lemma endswith_app (s p : str) : endswith (s ++ p) p = true.
Proof. apply endswith_suffix. by exists s. Qed.

Lemma lstrip_not_space (c : ascii) (s : str) :
  is_space c = false → lstrip (c :: s) = c :: s.
Proof. intros H. simpl. by rewrite H. Qed.

Lemma lstrip_head (s : str) (c : ascii) :
  take 1 (lstrip s) = [c] → is_space c = false.
Proof.
  induction s as [|x s IH]; simpl; [done|].
  destruct (is_space x) eqn:E; [done|]. simpl. by intros [= <-].
Qed.

Lemma lstrip_idemp (s : str) : lstrip (lstrip s) = lstrip s.
Proof.
  induction s as [|x s IH]; simpl; [done|].
  destruct (is_space x) eqn:E; [done|]. simpl. by rewrite E.
Qed.
End StrFacts2.

Module PathFacts2.
Import Str StrFacts StrFacts2 PathFacts.

Lemma path_join_app (dir name ext : str) :
  "/"%char ∉ name → startswith ext "/" = false →
  path_join dir (name ++ ext) = path_join dir name ++ ext.
Proof.
  intros Hname Hext. unfold path_join.
  assert (startswith (name ++ ext) "/" = false
          ∧ startswith name "/" = false) as [-> ->].
  { destruct name as [|c name]; simpl; [done|].
    apply not_elem_of_cons in Hname as [Hc _].
    rewrite bool_decide_eq_false_2 by done. done. }
  destruct (_ || _); by rewrite <- ?(assoc_L (++)).
Qed.

Lemma file_name_no_sep (href : str) : "/"%char ∉ Window.file_name href.
Proof. apply last_segment_no_sep. Qed.

Lemma no_sep_app (a b : str) :
  "/"%char ∉ a → forallb (λ c, negb (bool_decide (c = "/"%char))) b = true →
  "/"%char ∉ a ++ b.
Proof.
  intros Ha Hb [?|Hin]%elem_of_app; [done|].
  rewrite forallb_forall in Hb. apply list_elem_of_In, Hb in Hin.
  by rewrite bool_decide_eq_true_2 in Hin.
Qed.
End PathFacts2.

Section naming.
Import Str Fetcher StrFacts StrFacts2 PathFacts PathFacts2.

(** X15: for a name [stem + ".html"] without [/] and with no other
    [.html] in it, [hasExistingFile] looks for [stem + ".kml"] in the
    output directory. *)
Theorem hasExistingFile_html (w : world) (output_dir stem : str) :
  "/"%char ∉ stem → contains ".html" stem = false →
  hasExistingFile w output_dir (stem ++ ".html")
  = path_exists w (path_join output_dir (stem ++ ".kml")).
Proof.
  intros Hsep Hstem. unfold hasExistingFile.
  assert ("/"%char ∉ stem ++ ".html") as Hname by by apply no_sep_app.
  rewrite split_id by done. simpl last. simpl default.
  rewrite endswith_path_join;
    [|done|apply (no_sep_app []); [apply not_elem_of_nil|done]].
  by rewrite endswith_app, replace_html.
Qed.

Lemma hasExistingFile_html_witness :
  hasExistingFile Fixtures.offline "/tmp" ("toulouse.2020" ++ ".html")
  = path_exists Fixtures.offline (path_join "/tmp" ("toulouse.2020" ++ ".kml")).
Proof.
  apply (hasExistingFile_html Fixtures.offline "/tmp" "toulouse.2020"); [|reflexivity].
  apply (bool_decide_unpack _). vm_compute. reflexivity.
Defined.
End naming.

Module ToulouseFacts.
Import Str StrFacts2 PathFacts.

Lemma index_back_two {A} (l : list A) (x y : A) :
  index_back (l ++ [x; y]) 2 = Ok x.
Proof.
  unfold index_back. rewrite length_app. cbn [length].
  destruct (Nat.leb_spec 2 (length l + 2)); [|lia].
  replace (length l + 2 - 2) with (length l) by lia.
  by rewrite list_lookup_middle.
Qed.

Lemma split_two (base seg file : str) :
  "/"%char ∉ seg → "/"%char ∉ file →
  split "/" (base ++ "/" ++ seg ++ "/" ++ file)
  = split "/" base ++ [seg; file].
Proof.
  intros Hseg Hfile.
  change (base ++ "/" ++ seg ++ "/" ++ file)
    with (base ++ "/"%char :: (seg ++ "/"%char :: file)).
  rewrite !split_app.
  by rewrite (split_id _ seg), (split_id _ file) by done.
Qed.
End ToulouseFacts.

Section Toulouse_more.
Import Str Fetcher ToulouseFetcher StrFacts2 ToulouseFacts FixtureDefs.

(** X16: for an entry whose link is [base/seg/file], the item of
    [ToulouseFetcher.fetch] is named [toulouse.seg.html], its graphic is
    [base/seg_vag.png], its label is the date followed by the volcano in
    brackets, and its content is the advisory text read from the link. *)
Theorem toulouse_item (w : world) (output_dir base seg file volcano date
    text : str) :
  "/"%char ∉ seg → "/"%char ∉ file →
  read_message w (base ++ "/" ++ seg ++ "/" ++ file) = Ok text →
  body w output_dir (Some (base ++ "/" ++ seg ++ "/" ++ file), volcano, date)
  = Ok (Some (mark_converted w output_dir
                (Item (date ++ " (" ++ volcano ++ ")")
                   ("toulouse." ++ seg ++ ".html")
                   (base ++ "/" ++ seg ++ "/" ++ file)
                   (Some text)
                   (Some (base ++ "/" ++ seg ++ "_vag.png"))))).
Proof.
  intros Hseg Hfile Hread. unfold body, split_slash.
  cbn [mbind]. rewrite split_two by done.
  unfold mbind, result_bind. rewrite index_back_two.
  cbn [default]. unfold id. rewrite Hread.
  rewrite length_app. cbn [length].
  replace (length (split "/" base) + 2 - 2) with (length (split "/" base))
    by lia.
  rewrite take_app_length.
  change (list_ascii_of_string "/") with ["/"%char].
  by rewrite join_split.
Qed.

Lemma toulouse_item_witness :
  body served []
    (Some ("http://vaac.meteo.fr/adv" ++ "/" ++ "2020" ++ "/" ++ "x.html"),
     "ETNA" : str, "2020-05-01 12:00" : str)
  = Ok (Some (mark_converted served []
                (Item ("2020-05-01 12:00" ++ " (" ++ "ETNA" ++ ")")
                   ("toulouse." ++ "2020" ++ ".html")
                   ("http://vaac.meteo.fr/adv" ++ "/" ++ "2020" ++ "/"
                    ++ "x.html")
                   (Some (list_ascii_of_string
                            "VA ADVISORYDTG: 20200501/1200Z "))
                   (Some ("http://vaac.meteo.fr/adv" ++ "/" ++ "2020"
                          ++ "_vag.png"))))).
Proof.
  apply (toulouse_item served [] "http://vaac.meteo.fr/adv" "2020" "x.html"
           "ETNA" "2020-05-01 12:00" "VA ADVISORYDTG: 20200501/1200Z ").
  - apply (bool_decide_unpack _). vm_compute. reflexivity.
  - apply (bool_decide_unpack _). vm_compute. reflexivity.
  - reflexivity.
Defined.
End Toulouse_more.

Section Window_more.
Import Str Fetcher StrFacts StrFacts2 PathFacts PathFacts2.


(** X18: the file given to the converter and the file expected from it
    differ in the extension only, [.html] and [.kml], when the name of
    the item has [.html] at its end only or not at all; the expected
    file is the one [hasExistingFile] looks for. *)
Theorem html_and_kml_file (w : world) (output_dir href stem : str) :
  Window.file_name href = stem ∧ endswith stem ".html" = false
  ∨ Window.file_name href = stem ++ ".html" ∧ contains ".html" stem = false →
  Window.html_file output_dir href = path_join output_dir stem ++ ".html"
  ∧ Window.kml_file output_dir href = path_join output_dir stem ++ ".kml"
  ∧ hasExistingFile w output_dir href
    = path_exists w (path_join output_dir stem ++ ".kml").
Proof.
  intros H.
  assert (hasExistingFile w output_dir href
          = path_exists w (Window.kml_file output_dir href)) as -> by done.
  pose proof (file_name_no_sep href) as Hsep.
  assert (endswith (Window.vaa_file output_dir href) ".html"
          = endswith (Window.file_name href) ".html") as Hends.
  { apply endswith_path_join; [done|].
    apply (no_sep_app []); [apply not_elem_of_nil|done]. }
  unfold Window.html_file, Window.kml_file. rewrite Hends.
  unfold Window.vaa_file.
  destruct H as [[Hname Hstem]|[Hname Hstem]]; rewrite Hname in *.
  - rewrite Hstem. by rewrite path_join_app.
  - rewrite endswith_app, replace_html by done.
    assert ("/"%char ∉ stem) as Hsep'.
    { intros Hin. apply Hsep, elem_of_app. by left. }
    by rewrite !path_join_app.
Qed.

Lemma html_and_kml_file_witness :
  Window.html_file "/tmp" "toulouse.2020.html"
  = path_join "/tmp" "toulouse.2020" ++ ".html"
  ∧ Window.kml_file "/tmp" "toulouse.2020.html"
    = path_join "/tmp" "toulouse.2020" ++ ".kml"
  ∧ hasExistingFile Fixtures.offline "/tmp" "toulouse.2020.html"
    = path_exists Fixtures.offline (path_join "/tmp" "toulouse.2020" ++ ".kml").
Proof.
  apply (html_and_kml_file Fixtures.offline "/tmp" "toulouse.2020.html"
           "toulouse.2020").
  right. split; reflexivity.
Defined.
(** X22: an advisory text that [read_message] found, which begins
    with a header phrase, is not fetched again by [convertAdvisories]
    and is always written inside a [<pre>] element. *)
Theorem advisory_is_wrapped (w : world) (it : item) (text : str) :
  content it = Some text → VAADefs.has_header text = true →
  (c ← Window.read_content w it; Window.wrap c)
  = Ok ("<pre>" ++ [newline] ++ text ++ [newline] ++ "</pre>" ++ [newline]).
Proof.
  intros Hc Hh. unfold Window.read_content. rewrite Hc.
  assert (∃ rest, text = "V"%char :: rest) as [rest ->].
  { unfold VAADefs.has_header in Hh.
    apply orb_true_iff in Hh as [Hh|Hh];
      apply startswith_prefix in Hh as [rest ->]; by eexists. }
  reflexivity.
Qed.

Lemma advisory_is_wrapped_witness :
  let it := Item "label" "london.202005011200" "http://host/a"
              (Some (list_ascii_of_string "VA ADVISORY")) None in
  (c ← Window.read_content Fixtures.offline it; Window.wrap c)
  = Ok ("<pre>" ++ [newline] ++ "VA ADVISORY" ++ [newline] ++ "</pre>"
        ++ [newline]).
Proof.
  intros it.
  apply (advisory_is_wrapped Fixtures.offline it "VA ADVISORY"); reflexivity.
Defined.
End Window_more.

Module TestFacts.
Import Str Fetcher TestFetcher TestDefs.

Lemma scan_lines_cons (w : world) (line : str) (rest : list str)
    (date : datetime) (volcano : str) :
  scan_lines w (line :: rest) date volcano
  = date ←
      (if startswith line "DTG:"
       then strptime w (lstrip (drop 4 line)) "%Y%m%d/%H%MZ"
       else Ok date);
    scan_lines w rest date
      (if startswith line "VOLCANO:" then lstrip (drop 8 line) else volcano).
Proof. reflexivity. Qed.

Lemma scan_lines_raises (w : world) (lines : list str) (date : datetime)
    (volcano : str) :
  (∃ e, scan_lines w lines date volcano = Raise e)
  ↔ existsb (bad_dtg w) lines = true.
Proof.
  revert date volcano. induction lines as [|line rest IH];
    intros date volcano.
  - simpl. split; [by intros [e ?]|done].
  - rewrite scan_lines_cons. cbn [existsb]. unfold bad_dtg at 1.
    destruct (startswith line "DTG:"); cbn [andb orb].
    + destruct (strptime w _ _) as [d|e]; cbn [orb mbind result_bind];
        [apply IH|].
      split; [done|]. by exists e.
    + apply IH.
Qed.
End TestFacts.

Section Test_more.
Import Str Fetcher TestDefs TestFacts.

(** X19: [TestFetcher.fetch] adds one item, or it raises and adds
    none.  It raises what the download raises, [TypeError] when the
    bytes do not decode, and otherwise exactly when some [DTG:] line has
    a date that does not parse, also when a later [DTG:] line has one
    that does.  The item holds the whole text as its content. *)
Theorem test_fetch_outcome (w : world) (output_dir : str) :
  match urlopen_read w TestFetcher.url with
  | Raise e => TestFetcher.fetch w output_dir = ([], Some e)
  | Ok b =>
      match decode w b with
      | None => TestFetcher.fetch w output_dir = ([], Some TypeError)
      | Some text =>
          if existsb (bad_dtg w) (split newline text)
          then ∃ e, TestFetcher.fetch w output_dir = ([], Some e)
          else ∃ it, TestFetcher.fetch w output_dir = ([it], None)
                     ∧ url it = TestFetcher.url
                     ∧ content it = Some text
                     ∧ vag it = None
      end
  end.
Proof.
  unfold TestFetcher.fetch, decode_or_pass.
  destruct (urlopen_read w TestFetcher.url) as [b|e]; [|done].
  destruct (decode w b) as [text|] eqn:E; [|done].
  pose proof (scan_lines_raises w (split newline text) (now w) "Unknown")
    as H.
  destruct (existsb (bad_dtg w) (split newline text)).
  - destruct H as [_ [e ->]]; [done|]. by exists e.
  - destruct (TestFetcher.scan_lines _ _ _ _) as [[date volcano]|e].
    + eexists. split; [done|]. unfold mark_converted.
      by destruct (hasExistingFile _ _ _).
    + destruct H as [H _]. discriminate H. by exists e.
Qed.
End Test_more.

Module ReadFacts.
Import Str VAAParser VAADefs VAAFacts3.

End ReadFacts.

Section read_more.
Import Str Fetcher VAADefs ReadFacts.


End read_more.
